(** * The client-side monitoring layer of the TanStack demo application

    A shallow embedding of the monitoring utilities
    ([utils/monitoring.ts]), the monitoring configuration
    ([config/monitoring.ts]), the global error handler
    ([services/errorHandler.ts]) and the Web Vitals collector
    ([services/webVitals.ts]), with the properties the specification
    states about them.

    Conventions.
    - JavaScript numbers that are integers (clock readings, HTTP
      statuses, counters) are [Z]; metric values and the sample rate are
      rationals [Q], a decimal literal standing for the rational it
      writes.  Comparisons never see NaN in what is modelled here.
    - Browser storage is a finite map.  A text in [localStorage] is
      represented by what [JSON.parse] makes of it (see [Stored]).
    - Code with effects lives in the monad [M]: a function from the
      state of the page ([World]) to a result that either returns or
      throws, with the state left behind.
    - [Date.now()] and [Math.random()] read an environment the program
      does not control: the n-th reading is given by a function of n. *)

From Stdlib Require Import QArith Ascii.
From stdpp Require Import base strings gmap list pretty.

Local Open Scope string_scope.
Local Open Scope list_scope.
Local Open Scope Z_scope.

(** ** Strings and patterns *)

(** [s.startsWith(pre)] *)
Fixpoint startsWith (s pre : string) : bool :=
  match pre, s with
  | EmptyString, _ => true
  | String _ _, EmptyString => false
  | String a pre', String b s' => if Ascii.eqb a b then startsWith s' pre' else false
  end.

(** [s] contains [sub] as a substring: what [/sub/.test(s)] decides for a
    pattern without metacharacters. *)
Fixpoint includesText (s sub : string) : bool :=
  startsWith s sub ||
  match s with
  | EmptyString => false
  | String _ s' => includesText s' sub
  end.

(** The regular expressions of the configuration are literal texts,
    unanchored ([/Script error/]) or anchored at the start
    ([/^chrome:\/\//]). *)
Inductive RegExp :=
| Unanchored (lit : string)
| AtStart (lit : string).

Definition test (pattern : RegExp) (s : string) : bool :=
  match pattern with
  | Unanchored lit => includesText s lit
  | AtStart lit => startsWith s lit
  end.

(** ** Configuration ([config/monitoring.ts]) *)

Inductive Environment := Development | Production | Staging.

Record MonitoringConfig := {
  enableErrorTracking : bool;
  enablePerformanceTracking : bool;
  enableWebVitals : bool;
  sampleRate : Q;
  environment : Environment;
  apiEndpoint : option string;
  sentryDsn : option string;
}.

(** [monitoringConfig], for the two values of [import.meta.env.PROD] and
    the two environment variables that the build supplies. *)
Definition monitoringConfig (PROD : bool) (VITE_MONITORING_API_ENDPOINT VITE_SENTRY_DSN : option string)
  : MonitoringConfig :=
  {| enableErrorTracking := true;
     enablePerformanceTracking := true;
     enableWebVitals := true;
     sampleRate := if PROD then 0.1%Q else 1.0%Q;
     environment := if PROD then Production else Development;
     apiEndpoint := VITE_MONITORING_API_ENDPOINT;
     sentryDsn := VITE_SENTRY_DSN |}.

Record Threshold := { good : Q; needsImprovement : Q }.

(** [performanceThresholds], an object literal read by key. *)
Definition performanceThresholds : list (string * Threshold) :=
  [ ("LCP", {| good := 2500; needsImprovement := 4000 |});
    ("FID", {| good := 100; needsImprovement := 300 |});
    ("CLS", {| good := 0.1; needsImprovement := 0.25 |});
    ("FCP", {| good := 1800; needsImprovement := 3000 |});
    ("TTFB", {| good := 800; needsImprovement := 1800 |});
    ("apiResponse", {| good := 1000; needsImprovement := 3000 |});
    ("pageLoad", {| good := 3000; needsImprovement := 5000 |});
    ("routeChange", {| good := 500; needsImprovement := 1000 |}) ]%Q.

(** [obj[key]] on an object literal: the first (only) entry under [key]. *)
Fixpoint property {A} (obj : list (string * A)) (key : string) : option A :=
  match obj with
  | [] => None
  | (k, v) :: rest => if String.eqb k key then Some v else property rest key
  end.

Record ErrorFilters := {
  ignoreMessages : list RegExp;
  ignoreUrls : list RegExp;
  ignoreErrors : list string;
}.

Definition errorFilters : ErrorFilters :=
  {| ignoreMessages :=
       [ Unanchored "Script error";
         Unanchored "Non-Error promise rejection captured";
         Unanchored "ResizeObserver loop limit exceeded";
         Unanchored "ChunkLoadError" ];
     ignoreUrls :=
       [ Unanchored "extensions/";
         AtStart "chrome://";
         AtStart "moz-extension://" ];
     ignoreErrors := [ "Network Error"; "NetworkError"; "AbortError" ] |}.

(** ** Values *)

(** A JavaScript [Error]. *)
Record JsError := { message : string; stack : option string }.

(** [new Error(message)]; the stack the engine attaches is not modelled. *)
Definition newError (msg : string) : JsError := {| message := msg; stack := None |}.

(** The values that travel in contexts and event properties. *)
Inductive JsVal :=
| VUndefined
| VString (s : string)
| VInt (z : Z)
| VNumber (q : Q)
| VError (e : JsError).

(** [x || fallback] on an optional string: [undefined] and the empty
    string are falsy. *)
Definition truthy (o : option string) : option string :=
  match o with
  | Some "" => None
  | other => other
  end.

(** ** The event filter ([shouldIgnoreError], utils/monitoring.ts) *)

Inductive ErrorOrString :=
| OfString (s : string)
| OfError (e : JsError).

Definition shouldIgnoreError (error : ErrorOrString) (url : option string) : bool :=
  let message := match error with OfString s => s | OfError e => message e end in
  if existsb (fun pattern => test pattern message) (ignoreMessages errorFilters) then true
  else if existsb (String.eqb message) (ignoreErrors errorFilters) then true
  else match truthy url with
       | Some u => if existsb (fun pattern => test pattern u) (ignoreUrls errorFilters) then true else false
       | None => false
       end.

(** ** Web Vitals: records and rating ([services/webVitals.ts]) *)

(** [WebVitalsMetric['name']] *)
Inductive VitalName := CLS | FID | FCP | LCP | TTFB.

Definition nameString (n : VitalName) : string :=
  match n with
  | CLS => "CLS" | FID => "FID" | FCP => "FCP" | LCP => "LCP" | TTFB => "TTFB"
  end.

Record WebVitalsMetric := {
  name : VitalName;
  value : Q;
  delta : Q;
  id : string;
  timestamp : Z;
}.

Inductive Rating := Good | NeedsImprovement | Poor.

Definition ratingString (r : Rating) : string :=
  match r with
  | Good => "good" | NeedsImprovement => "needs-improvement" | Poor => "poor"
  end.

(** [WebVitalsCollector.getRating] *)
Definition getRating (name : VitalName) (value : Q) : Rating :=
  match property performanceThresholds (nameString name) with
  | None => Good
  | Some threshold =>
      if Qle_bool value (good threshold) then Good
      else if Qle_bool value (needsImprovement threshold) then NeedsImprovement
      else Poor
  end.

Record SummaryEntry := { summaryValue : Q; summaryRating : Rating }.

(** One turn of the [forEach] in [getMetricsSummary].  The guard compares
    the record's timestamp with the [value] field of the entry kept so
    far, as the source does. *)
Definition summaryStep (summary : gmap string SummaryEntry) (metric : WebVitalsMetric)
  : gmap string SummaryEntry :=
  let fresh := {| summaryValue := value metric;
                  summaryRating := getRating (name metric) (value metric) |} in
  match summary !! nameString (name metric) with
  | None => <[nameString (name metric) := fresh]> summary
  | Some kept =>
      if negb (Qle_bool (inject_Z (timestamp metric)) (summaryValue kept))
      then <[nameString (name metric) := fresh]> summary
      else summary
  end.

(** [WebVitalsCollector.getMetricsSummary], over the collector's list. *)
Definition getMetricsSummary (metrics : list WebVitalsMetric) : gmap string SummaryEntry :=
  fold_left summaryStep metrics ∅.

(** The summary the specification describes: for each name, the value
    and rating of the record with the greatest timestamp (the later one
    among equals). *)
Definition latestStep (best : option WebVitalsMetric) (metric : WebVitalsMetric)
  : option WebVitalsMetric :=
  match best with
  | None => Some metric
  | Some b => if timestamp b <=? timestamp metric then Some metric else Some b
  end.

Definition mostRecent (n : VitalName) (metrics : list WebVitalsMetric) : option WebVitalsMetric :=
  fold_left latestStep (filter (fun m => nameString (name m) = nameString n) metrics) None.

Definition entryOf (m : WebVitalsMetric) : SummaryEntry :=
  {| summaryValue := value m; summaryRating := getRating (name m) (value m) |}.

(** ** Records of the monitoring layer ([types/monitoring.d.ts]) *)

Record UserSession := {
  sessionId : string;
  userId : option string;
  startTime : Z;
  lastActivity : Z;
  pageViews : Z;
  errors : Z;
}.

Record ErrorInfo := {
  info_message : string;
  info_stack : option string;
  info_componentStack : option string;
  info_errorBoundary : option string;
  info_timestamp : Z;
  info_url : string;
  info_userAgent : string;
  info_sessionId : string;
}.

Record PerformanceMetric := {
  perf_name : string;
  perf_value : Q;
  perf_timestamp : Z;
  perf_url : string;
  perf_sessionId : string;
}.

Record NetworkError := {
  net_url : string;
  net_method : string;
  net_status : Z;
  net_statusText : string;
  net_timestamp : Z;
  net_duration : Z;
  net_sessionId : string;
}.

(** [Record<string, any>] *)
Abbreviation Props := (gmap string JsVal).

Record CustomEvent := {
  event_name : string;
  event_properties : Props;
  event_timestamp : Z;
  event_sessionId : string;
}.

(** ** The state of the page *)

(** A text kept in [localStorage], by what the program can make of it.
    The source gives the type [UserSession] to the object that it parses
    from the store, and so does the model: an object in the store is a
    session record.  A text that parses to an array, or to an object
    that is not a session record, has no place in that type and is not
    represented; no statement below speaks of such an entry. *)
Inductive Stored :=
| EmptyText                      (* the empty string *)
| Unparsable (text : string)     (* [JSON.parse] throws on it *)
| Primitive (text : string)      (* parses to a number, a string or a boolean *)
| NullJson                       (* parses to [null] *)
| SessionJson (s : UserSession). (* [JSON.stringify] of a session *)

(** What is sent as the body of a POST. *)
Inductive Payload :=
| MetricBody (m : PerformanceMetric)
| NetworkErrorBody (e : NetworkError)
| ErrorInfoBody (e : ErrorInfo)
| EventBody (e : CustomEvent)
| WebVitalBody (m : WebVitalsMetric) (rating : Rating) (sessionId url userAgent : string).

Inductive SentryCall :=
| CaptureException (e : JsError) (scope : Props) (user : option Stored)
| CaptureMessage (text level : string) (tags : Props)
| AddBreadcrumb (category level : string) (data : Props).

(** What the monitoring layer does to its surroundings, in order.
    [Recorded p] notes that the record [p] was built and handed to its
    delivery function: the source keeps no copy of a record, and with no
    endpoint configured nothing else would show that it existed. *)
Inductive Effect :=
| Recorded (p : Payload)
| FetchPost (url : string) (body : Payload)
| Sentry (call : SentryCall)
| ConsoleLog (text : string)
| ConsoleError (text : string)
| PreventDefault.

(** An entry of [GlobalErrorHandler.errorQueue]. *)
Record QueueEntry := { error : JsError; context : option Props }.

Record World := {
  sessionStorage : gmap string string;
  localStorage : gmap string Stored;
  errorQueue : list QueueEntry;        (* GlobalErrorHandler.errorQueue *)
  metrics : list WebVitalsMetric;      (* WebVitalsCollector.metrics *)
  trace : list Effect;                 (* oldest first *)
  dateReads : nat;                     (* readings of [Date.now()] taken so far *)
  randomReads : nat;                   (* readings of [Math.random()] taken so far *)
}.

Definition withSessionStorage (f : gmap string string → gmap string string) (w : World) : World :=
  {| sessionStorage := f (sessionStorage w); localStorage := localStorage w;
     errorQueue := errorQueue w; metrics := metrics w; trace := trace w;
     dateReads := dateReads w; randomReads := randomReads w |}.

Definition withLocalStorage (f : gmap string Stored → gmap string Stored) (w : World) : World :=
  {| sessionStorage := sessionStorage w; localStorage := f (localStorage w);
     errorQueue := errorQueue w; metrics := metrics w; trace := trace w;
     dateReads := dateReads w; randomReads := randomReads w |}.

Definition withErrorQueue (f : list QueueEntry → list QueueEntry) (w : World) : World :=
  {| sessionStorage := sessionStorage w; localStorage := localStorage w;
     errorQueue := f (errorQueue w); metrics := metrics w; trace := trace w;
     dateReads := dateReads w; randomReads := randomReads w |}.

Definition withMetrics (f : list WebVitalsMetric → list WebVitalsMetric) (w : World) : World :=
  {| sessionStorage := sessionStorage w; localStorage := localStorage w;
     errorQueue := errorQueue w; metrics := f (metrics w); trace := trace w;
     dateReads := dateReads w; randomReads := randomReads w |}.

Definition withTrace (f : list Effect → list Effect) (w : World) : World :=
  {| sessionStorage := sessionStorage w; localStorage := localStorage w;
     errorQueue := errorQueue w; metrics := metrics w; trace := f (trace w);
     dateReads := dateReads w; randomReads := randomReads w |}.

Definition withDateReads (f : nat → nat) (w : World) : World :=
  {| sessionStorage := sessionStorage w; localStorage := localStorage w;
     errorQueue := errorQueue w; metrics := metrics w; trace := trace w;
     dateReads := f (dateReads w); randomReads := randomReads w |}.

Definition withRandomReads (f : nat → nat) (w : World) : World :=
  {| sessionStorage := sessionStorage w; localStorage := localStorage w;
     errorQueue := errorQueue w; metrics := metrics w; trace := trace w;
     dateReads := dateReads w; randomReads := f (randomReads w) |}.

(** A page just loaded: nothing stored, nothing captured. *)
Definition freshWorld : World :=
  {| sessionStorage := ∅; localStorage := ∅; errorQueue := []; metrics := [];
     trace := []; dateReads := 0%nat; randomReads := 0%nat |}.

(** ** The monad of the page's code *)

Inductive Res (A : Type) :=
| Returns (a : A) (w : World)
| Throws (e : JsError) (w : World).
Arguments Returns {A} a w.
Arguments Throws {A} e w.

Definition M (A : Type) : Type := World → Res A.

#[global] Instance M_ret : MRet M := λ A a w, Returns a w.

#[global] Instance M_bind : MBind M := λ A B f m w,
  match m w with
  | Returns a w' => f a w'
  | Throws e w' => Throws e w'
  end.

Definition throw {A} (e : JsError) : M A := λ w, Throws e w.

(** [try { body } catch (error) { handler }] *)
Definition tryCatch {A} (body : M A) (handler : JsError → M A) : M A := λ w,
  match body w with
  | Returns a w' => Returns a w'
  | Throws e w' => handler e w'
  end.

Definition get {A} (f : World → A) : M A := λ w, Returns (f w) w.
Definition modify (f : World → World) : M unit := λ w, Returns tt (f w).
Definition emit (e : Effect) : M unit := modify (withTrace (λ t, t ++ [e])).

(** [if (c) { body }] with no [else] *)
Definition when (c : bool) (body : M unit) : M unit := if c then body else mret tt.

(** The state a computation leaves behind, whether it returns or throws. *)
Definition worldAfter {A} (r : Res A) : World :=
  match r with
  | Returns _ w => w
  | Throws _ w => w
  end.

(** The computation returns, and what it returns satisfies [post]. *)
Definition returnsWith {A} (r : Res A) (post : A → World → Prop) : Prop :=
  match r with
  | Returns a w => post a w
  | Throws _ _ => False
  end.

(** What was captured so far is untouched between two states. *)
Definition captureKept (w w' : World) : Prop :=
  errorQueue w' = errorQueue w ∧ metrics w' = metrics w ∧ trace w' = trace w.

Definition syntaxError : JsError := {| message := "SyntaxError"; stack := None |}.
Definition typeError : JsError := {| message := "TypeError"; stack := None |}.

(** ** The transport under the fetch wrapper *)

Record Response := { status : Z; statusText : string }.

(** [response.ok]: the status is in the range 200-299. *)
Definition ok (response : Response) : bool :=
  (200 <=? status response) && (status response <=? 299).

(** How a call of the fetch that was in place before wrapping settles. *)
Inductive Outcome :=
| Resolves (response : Response)
| Rejects (reason : JsError).

(** The arguments of a fetch call: a URL text or a [Request] (of which the
    wrapper reads the [url]), and the [method] of the init object if any. *)
Inductive FetchInput :=
| UrlText (url : string)
| RequestObject (url : string).

Record FetchArgs := { input : FetchInput; initMethod : option string }.

(** What the code reads but does not own. *)
Class Env := {
  (** the module constant [monitoringConfig] *)
  config : MonitoringConfig;
  (** the n-th reading of [Date.now()] *)
  clock : nat → Z;
  (** the n-th value of [Math.random().toString(36).substr(2, 9)] *)
  entropy : nat → string;
  (** [window.location.href] and [navigator.userAgent] *)
  href : string;
  userAgent : string;
  (** the fetch that [setupNetworkErrorMonitoring] finds in place *)
  transport : FetchArgs → Outcome;
}.

Section Page.

Context `{Env}.

Definition dateNow : M Z := λ w,
  Returns (clock (dateReads w)) (withDateReads S w).

Definition mathRandom : M string := λ w,
  Returns (entropy (randomReads w)) (withRandomReads S w).

(** *** utils/monitoring.ts *)

Definition generateId : M string :=
  now ← dateNow;
  suffix ← mathRandom;
  mret (pretty now +:+ "-" +:+ suffix).

Definition getSessionId : M string :=
  stored ← get (λ w, sessionStorage w !! "monitoring_session_id");
  match truthy stored with
  | Some sessionId => mret sessionId
  | None =>
      sessionId ← generateId;
      modify (withSessionStorage <["monitoring_session_id" := sessionId]>);;
      mret sessionId
  end.

Definition setLastActivity (now : Z) (s : UserSession) : UserSession :=
  {| sessionId := sessionId s; userId := userId s; startTime := startTime s;
     lastActivity := now; pageViews := pageViews s; errors := errors s |}.

Definition getUserSession : M UserSession :=
  sessionId ← getSessionId;
  stored ← get (λ w, localStorage w !! ("session_" +:+ sessionId));
  match stored with
  | Some (SessionJson session) =>
      now ← dateNow;
      let session := setLastActivity now session in
      modify (withLocalStorage <["session_" +:+ sessionId := SessionJson session]>);;
      mret session
  | Some (Unparsable _) => throw syntaxError
  | Some (Primitive _) | Some NullJson => _ ← dateNow; throw typeError
  | Some EmptyText | None =>
      start ← dateNow;
      last ← dateNow;
      let newSession :=
        {| sessionId := sessionId; userId := None; startTime := start;
           lastActivity := last; pageViews := 1; errors := 0 |} in
      modify (withLocalStorage <["session_" +:+ sessionId := SessionJson newSession]>);;
      mret newSession
  end.

Inductive StatKind := PageView | ErrorStat.

Definition updateSessionStats (type : StatKind) : M unit :=
  session ← getUserSession;
  let session :=
    match type with
    | PageView =>
        {| sessionId := sessionId session; userId := userId session;
           startTime := startTime session; lastActivity := lastActivity session;
           pageViews := pageViews session + 1; errors := errors session |}
    | ErrorStat =>
        {| sessionId := sessionId session; userId := userId session;
           startTime := startTime session; lastActivity := lastActivity session;
           pageViews := pageViews session; errors := errors session + 1 |}
    end in
  now ← dateNow;
  let session := setLastActivity now session in
  modify (withLocalStorage <["session_" +:+ sessionId session := SessionJson session]>).

Definition formatErrorInfo (error : JsError) (componentStack errorBoundary : option string)
  : M ErrorInfo :=
  now ← dateNow;
  sid ← getSessionId;
  mret {| info_message := message error; info_stack := stack error;
          info_componentStack := componentStack; info_errorBoundary := errorBoundary;
          info_timestamp := now; info_url := href; info_userAgent := userAgent;
          info_sessionId := sid |}.

(** The three delivery functions.  A POST handed to [fetch] is noted in
    the trace; how it settles (the [catch] that logs a failed delivery)
    happens after the call has returned and is not part of it.  When the
    fetch in place is the wrapper below, the POST is one more wrapped
    call, settled later like any other. *)
Definition sendMetricToService (metric : PerformanceMetric) : M unit :=
  match truthy (apiEndpoint config) with
  | None => mret tt
  | Some endpoint => emit (FetchPost (endpoint +:+ "/metrics") (MetricBody metric))
  end.

Definition sendErrorToService (error : NetworkError + ErrorInfo) : M unit :=
  match truthy (apiEndpoint config) with
  | None => mret tt
  | Some endpoint =>
      emit (FetchPost (endpoint +:+ "/errors")
              (match error with inl e => NetworkErrorBody e | inr e => ErrorInfoBody e end))
  end.

Definition sendEventToService (event : CustomEvent) : M unit :=
  match truthy (apiEndpoint config) with
  | None => mret tt
  | Some endpoint => emit (FetchPost (endpoint +:+ "/events") (EventBody event))
  end.

(** The three recording functions build a record and hand it to its
    delivery function; the [Recorded] note in between is the model's, see
    [Effect]. *)
Definition recordPerformanceMetric (name : string) (value : Q) : M unit :=
  if negb (enablePerformanceTracking config) then mret tt
  else
    now ← dateNow;
    sid ← getSessionId;
    let metric := {| perf_name := name; perf_value := value; perf_timestamp := now;
                     perf_url := href; perf_sessionId := sid |} in
    emit (Recorded (MetricBody metric));;
    sendMetricToService metric;;
    when (match environment config with Development => true | _ => false end)
      (emit (ConsoleLog ("Performance Metric: " +:+ name))).

Definition recordNetworkError (url method : string) (status : Z) (statusText : string)
    (duration : Z) : M unit :=
  now ← dateNow;
  sid ← getSessionId;
  let networkError := {| net_url := url; net_method := method; net_status := status;
                         net_statusText := statusText; net_timestamp := now;
                         net_duration := duration; net_sessionId := sid |} in
  emit (Recorded (NetworkErrorBody networkError));;
  sendErrorToService (inl networkError).

Definition recordCustomEvent (name : string) (properties : Props) : M unit :=
  now ← dateNow;
  sid ← getSessionId;
  let event := {| event_name := name; event_properties := properties;
                  event_timestamp := now; event_sessionId := sid |} in
  emit (Recorded (EventBody event));;
  sendEventToService event.

(** The age past which a session is swept: 24 hours, in ms. *)
Definition maxAge : Z := 24 * 60 * 60 * 1000.

(** The body of the [forEach] in [cleanupExpiredSessions], for one key
    of the snapshot [Object.keys(localStorage)], on the live store. *)
Definition cleanupKey (now : Z) (key : string) (store : gmap string Stored)
  : gmap string Stored :=
  if startsWith key "session_" then
    match store !! key with
    | Some (Unparsable _) => delete key store            (* [JSON.parse] throws: the [catch] branch *)
    | Some NullJson => delete key store                  (* [null.lastActivity] throws: the same *)
    | Some (SessionJson session) =>
        if maxAge <? now - lastActivity session then delete key store else store
    | Some (Primitive _) => store                        (* [now - undefined] is NaN *)
    | Some EmptyText | None => store                     (* [|| '{}'], NaN again *)
    end
  else store.

(** [cleanupExpiredSessions]: one reading of the clock, then the loop over
    the keys that the store had when the loop began. *)
Definition cleanupExpiredSessions : M unit :=
  now ← dateNow;
  modify (withLocalStorage (λ store,
    fold_left (λ live key, cleanupKey now key live) (elements (dom store)) store)).

(** *** services/errorHandler.ts *)

Definition maxQueueSize : nat := 100.

(** [array.slice(-n)]: the last [n] elements. *)
Definition sliceLast {A} (n : nat) (l : list A) : list A := drop (length l - n) l.

(** [array.shift()], for its effect on the array. *)
Definition shift {A} (l : list A) : list A := tail l.

Definition addToErrorQueue (error : JsError) (context : option Props) : M unit :=
  full ← get (λ w, bool_decide (maxQueueSize ≤ length (errorQueue w))%nat);
  when full (modify (withErrorQueue shift));;
  modify (withErrorQueue (λ q, q ++ [{| error := error; context := context |}])).

Definition cleanupErrorQueue : M unit :=
  modify (withErrorQueue (λ q, if bool_decide (50 < length q)%nat then sliceLast 50 q else q)).

(** [context.type], a text in every context the handler builds. *)
Definition contextType (context : Props) : JsVal := default VUndefined (context !! "type").

Definition optString (o : option string) : JsVal :=
  match o with
  | Some s => VString s
  | None => VUndefined
  end.

Definition isDevelopment : bool :=
  match environment config with
  | Development => true
  | _ => false
  end.

(** [processError]; the scope that [Sentry.withScope] sets up is folded
    into the one [CaptureException] call, with the user id if one is
    stored. *)
Definition processError (error : JsError) (context : Props) (errorInfo : ErrorInfo) : M unit :=
  updateSessionStats ErrorStat;;
  addToErrorQueue error (Some context);;
  user ← get (λ w, match localStorage w !! "userId" with
                   | Some EmptyText | None => None
                   | Some stored => Some stored
                   end);
  emit (Sentry (CaptureException error context user));;
  recordCustomEvent "error_occurred"
    (list_to_map [ ("message", VString (message error));
                   ("stack", optString (stack error));
                   ("type", contextType context);
                   ("url", VString href) ]);;
  when isDevelopment
    (emit (ConsoleError "Global Error Handler:");;
     emit (ConsoleError "Context:")).

(** [ErrorEvent], as far as the handler reads it. *)
Record ErrorEvent := {
  ev_error : option JsError;
  ev_message : string;
  ev_filename : string;
  ev_lineno : Z;
  ev_colno : Z;
}.

Definition handleGlobalError (event : ErrorEvent) : M unit :=
  let error := default (newError (ev_message event)) (ev_error event) in
  if shouldIgnoreError (OfError error) (Some (ev_filename event)) then mret tt
  else
    errorInfo ← formatErrorInfo error
      (Some ("at " +:+ ev_filename event +:+ ":" +:+ pretty (ev_lineno event)
             +:+ ":" +:+ pretty (ev_colno event)))
      (Some "GlobalErrorHandler");
    let context : Props :=
      list_to_map [ ("filename", VString (ev_filename event));
                    ("lineno", VInt (ev_lineno event));
                    ("colno", VInt (ev_colno event));
                    ("type", VString "javascript_error") ] in
    processError error context errorInfo.

(** The [reason] of a [PromiseRejectionEvent]: an [Error], or another
    value given by its rendering [String(reason)]. *)
Inductive Reason :=
| ErrorReason (e : JsError)
| OtherReason (rendering : string).

Definition handleUnhandledRejection (reason : Reason) : M unit :=
  let error := match reason with
               | ErrorReason e => e
               | OtherReason rendering => newError rendering
               end in
  if shouldIgnoreError (OfError error) None then mret tt
  else
    errorInfo ← formatErrorInfo error None (Some "GlobalErrorHandler");
    let context : Props :=
      list_to_map [ ("type", VString "unhandled_promise_rejection");
                    ("reason", match reason with
                               | ErrorReason e => VError e
                               | OtherReason rendering => VString rendering
                               end) ] in
    processError error context errorInfo;;
    when (match environment config with Production => true | _ => false end)
      (emit PreventDefault).

(** [GlobalErrorHandler.reportError]; the context object is
    [{ ...context, type: 'manual_report' }]. *)
Definition reportError (error : JsError) (context : option Props) : M unit :=
  if negb (shouldIgnoreError (OfError error) None) then
    errorInfo ← formatErrorInfo error None (Some "ManualReport");
    processError error (<["type" := VString "manual_report"]> (default ∅ context)) errorInfo
  else mret tt.

Definition getErrorQueue : M (list QueueEntry) := get errorQueue.

Definition clearErrorQueue : M unit := modify (withErrorQueue (λ _, [])).

Record ErrorStats := {
  total : nat;
  byType : gmap string nat;
  recent : list QueueEntry;
}.

(** An entry whose [context.type] is a text, [undefined] or absent: what
    every entry is that the handler builds, each of its contexts carrying
    a type that is a text literal of the source. *)
Definition textTyped (entry : QueueEntry) : Prop :=
  match context entry with
  | Some c => match c !! "type" with
              | Some (VString _) | Some VUndefined | None => True
              | Some _ => False
              end
  | None => True
  end.

(** [context?.type || 'unknown'], the key under which an entry counts,
    for an entry that is [textTyped].  A truthy type of another kind (a
    number, an object) is turned into a text by the engine when it is
    used as a key; that conversion is not modelled, and what is stated
    of the statistics is stated of [textTyped] entries only. *)
Definition typeKey (entry : QueueEntry) : string :=
  match context entry with
  | Some c => match c !! "type" with
              | Some (VString s) => default "unknown" (truthy (Some s))
              | _ => "unknown"
              end
  | None => "unknown"
  end.

Definition getErrorStats : M ErrorStats :=
  queue ← get errorQueue;
  mret {| total := length queue;
          byType := fold_left (λ counts entry,
                      <[typeKey entry := S (default 0%nat (counts !! typeKey entry))]> counts)
                      queue ∅;
          recent := sliceLast 10 queue |}.

(** The fetch wrapper of [setupNetworkErrorMonitoring]. *)
Definition originalFetch (args : FetchArgs) : M Response :=
  match transport args with
  | Resolves response => mret response
  | Rejects reason => throw reason
  end.

(** The function that replaces [window.fetch].  The clock is read when
    the call starts and again when the transport has settled. *)
Definition wrappedFetch (args : FetchArgs) : M Response :=
  startTime ← dateNow;
  let url := match input args with UrlText u => u | RequestObject u => u end in
  let method := default "GET" (truthy (initMethod args)) in
  tryCatch
    (response ← originalFetch args;
     finish ← dateNow;
     let duration := finish - startTime in
     when (5000 <? duration)
       (recordCustomEvent "slow_request"
          (list_to_map [ ("url", VString url); ("method", VString method);
                         ("duration", VInt duration);
                         ("status", VInt (status response)) ]));;
     when (negb (ok response))
       (recordNetworkError url method (status response) (statusText response) duration;;
        when (500 <=? status response)
          (emit (Sentry (CaptureMessage
             ("Network Error: " +:+ pretty (status response) +:+ " " +:+ statusText response)
             "error"
             (list_to_map [ ("url", VString url); ("method", VString method);
                            ("status", VInt (status response)) ])))));;
     mret response)
    (λ error,
       finish ← dateNow;
       let duration := finish - startTime in
       recordNetworkError url method 0 "Network Error" duration;;
       emit (Sentry (CaptureException error
         (list_to_map [ ("type", VString "network_error"); ("url", VString url);
                        ("method", VString method) ]) None));;
       throw error).

(** *** services/webVitals.ts: the collector *)

Definition sendMetric (metric : WebVitalsMetric) (rating : Rating) : M unit :=
  match truthy (apiEndpoint config) with
  | None => mret tt
  | Some endpoint =>
      sid ← getSessionId;
      emit (FetchPost (endpoint +:+ "/web-vitals") (WebVitalBody metric rating sid href userAgent))
  end.

(** The threshold object that the source attaches to the message and to
    the event is left out of their properties. *)
Definition handlePoorPerformance (metric : WebVitalsMetric) (rating : Rating) : M unit :=
  emit (Sentry (CaptureMessage ("Poor Web Vital: " +:+ nameString (name metric)) "warning"
          (list_to_map [ ("webVital", VString (nameString (name metric)));
                         ("rating", VString (ratingString rating)) ])));;
  recordCustomEvent "performance_issue"
    (list_to_map [ ("type", VString "web_vital");
                   ("metric", VString (nameString (name metric)));
                   ("value", VNumber (value metric));
                   ("rating", VString (ratingString rating)) ]).

Definition handleMetric (metric : WebVitalsMetric) : M unit :=
  modify (withMetrics (λ ms, ms ++ [metric]));;
  let rating := getRating (name metric) (value metric) in
  sendMetric metric rating;;
  recordCustomEvent "web_vital"
    (list_to_map [ ("name", VString (nameString (name metric)));
                   ("value", VNumber (value metric));
                   ("rating", VString (ratingString rating));
                   ("id", VString (id metric)) ]);;
  emit (Sentry (AddBreadcrumb "web-vital"
          (match rating with Poor => "warning" | _ => "info" end)
          (list_to_map [ ("name", VString (nameString (name metric)));
                         ("value", VNumber (value metric));
                         ("rating", VString (ratingString rating));
                         ("id", VString (id metric)) ])));;
  when isDevelopment (emit (ConsoleLog ("Web Vital - " +:+ nameString (name metric) +:+ ":")));;
  when (match rating with Poor => true | _ => false end) (handlePoorPerformance metric rating).

(** One firing of a callback that [collectMetrics] registers - with
    [onCLS], [onINP] (under the name 'FID'), [onFCP], [onLCP] and
    [onTTFB]: the library's report, stamped with [Date.now()], goes to
    [handleMetric].  Every record of the collector is made here. *)
Definition onVital (name : VitalName) (value delta : Q) (id : string) : M unit :=
  now ← dateNow;
  handleMetric {| name := name; value := value; delta := delta; id := id; timestamp := now |}.

Definition getMetrics : M (list WebVitalsMetric) := get metrics.

Definition clearMetrics : M unit := modify (withMetrics (λ _, [])).

(** [getMetricsSummary] on the collector's own list. *)
Definition metricsSummary : M (gmap string SummaryEntry) :=
  get (λ w, getMetricsSummary (metrics w)).

(** A sequence of [reportError] calls, one after the other. *)
Fixpoint reportAll (reports : list (JsError * option Props)) : M unit :=
  match reports with
  | [] => mret tt
  | (error, context) :: rest => reportError error context;; reportAll rest
  end.

End Page.

(** ** Reading a trace, and the statements of the specification *)

(** The POSTs of a trace, in order. *)
Definition posts (t : list Effect) : list (string * Payload) :=
  omap (λ e, match e with FetchPost url body => Some (url, body) | _ => None end) t.

(** The network error records built in a trace. *)
Definition networkErrors (t : list Effect) : list NetworkError :=
  omap (λ e, match e with Recorded (NetworkErrorBody r) => Some r | _ => None end) t.

(** The custom events of a given name built in a trace. *)
Definition customEvents (name : string) (t : list Effect) : list CustomEvent :=
  omap (λ e, match e with
             | Recorded (EventBody ev) => if String.eqb (event_name ev) name then Some ev else None
             | _ => None
             end) t.

(** How a computation settled, without the state: what it returned or
    what it threw. *)
Definition settled {A} (r : Res A) : A + JsError :=
  match r with
  | Returns a _ => inl a
  | Throws e _ => inr e
  end.

(** The URL and the method that the wrapper reports for a call. *)
Definition reportedUrl (args : FetchArgs) : string :=
  match input args with UrlText u => u | RequestObject u => u end.

Definition reportedMethod (args : FetchArgs) : string :=
  default "GET" (truthy (initMethod args)).

(** The duration that the wrapper measures for a call started in [w]:
    the difference of its two readings of the clock. *)
Definition measured `{Env} (w : World) : Z := clock (S (dateReads w)) - clock (dateReads w).

(** The properties of a [slow_request] event. *)
Definition slowRequestProperties (args : FetchArgs) (duration : Z) (response : Response) : Props :=
  list_to_map [ ("url", VString (reportedUrl args));
                ("method", VString (reportedMethod args));
                ("duration", VInt duration);
                ("status", VInt (status response)) ].

(** Every entry under a [session_] key was written by the session tracker
    (or is empty): the state in which [getUserSession] does not throw. *)
Definition storageSound (w : World) : Prop :=
  ∀ key, startsWith key "session_" = true →
         match localStorage w !! key with
         | Some (Unparsable _) | Some (Primitive _) | Some NullJson => False
         | Some EmptyText | Some (SessionJson _) | None => True
         end.

(** What [addToErrorQueue] makes of the queue: past the cap the oldest
    entry goes, then the new one is appended. *)
Definition enqueue (q : list QueueEntry) (entry : QueueEntry) : list QueueEntry :=
  (if bool_decide (maxQueueSize ≤ length q)%nat then shift q else q) ++ [entry].

(** A report that the filter lets through. *)
Definition unignored (report : JsError * option Props) : Prop :=
  shouldIgnoreError (OfError report.1) None = false.

#[global] Instance unignored_dec (report : JsError * option Props) : Decision (unignored report).
Proof. unfold unignored. apply _. Defined.

(** What a computation returned, if it did. *)
Definition returned {A} (r : Res A) : option A :=
  match r with
  | Returns a _ => Some a
  | Throws _ _ => None
  end.

(** A computation that leaves a component of the page as it found it,
    whether it returns or throws. *)
Definition keeps {A B} (component : World → B) (m : M A) : Prop :=
  ∀ w, component (worldAfter (m w)) = component w.

(** The entry the queue holds for a manual report. *)
Definition manualEntry (report : JsError * option Props) : QueueEntry :=
  {| error := report.1;
     context := Some (<["type" := VString "manual_report"]> (default ∅ report.2)) |}.

(** The table of thresholds as the specification prints it. *)
Definition ratingTable (n : VitalName) : Q * Q :=
  match n with
  | LCP => (2500, 4000)
  | FID => (100, 300)
  | CLS => (0.1, 0.25)
  | FCP => (1800, 3000)
  | TTFB => (800, 1800)
  end%Q.

(** Whether the sweep of the source deletes the entry [v] found under
    [key] at time [now]. *)
Definition swept (now : Z) (key : string) (v : Stored) : bool :=
  startsWith key "session_" &&
  match v with
  | Unparsable _ | NullJson => true
  | SessionJson session => maxAge <? now - lastActivity session
  | EmptyText | Primitive _ => false
  end.

(** The sweep as the specification words it: among the persisted
    sessions, delete those with [now - last_activity > max_age_ms] and
    return how many were deleted. *)
Definition expiredSession (max_age_ms now : Z) (key : string) (v : Stored) : bool :=
  startsWith key "session_" &&
  match v with
  | SessionJson session => max_age_ms <? now - lastActivity session
  | _ => false
  end.

Definition sweep_expired_spec (max_age_ms now : Z) (store : gmap string Stored)
  : gmap string Stored * nat :=
  (filter (λ kv, expiredSession max_age_ms now kv.1 kv.2 = false) store,
   size (filter (λ kv, expiredSession max_age_ms now kv.1 kv.2 = true) store)).

(** What can happen on a page, as far as the monitoring layer takes part
    in it, and the states that a page can be in after any number of such
    happenings since it was loaded. *)
Inductive Happening :=
| ManualReport (error : JsError) (context : option Props)
| UncaughtError (event : ErrorEvent)
| UnhandledRejection (reason : Reason)
| SessionRead
| SessionStat (kind : StatKind)
| Sweep
| QueueCompaction
| QueueCleared
| FetchCall (args : FetchArgs)
| VitalReported (metric : WebVitalsMetric)
| MetricsCleared
| PerformanceRecorded (name : string) (value : Q).

Definition happen `{Env} (h : Happening) (w : World) : World :=
  match h with
  | ManualReport error context => worldAfter (reportError error context w)
  | UncaughtError event => worldAfter (handleGlobalError event w)
  | UnhandledRejection reason => worldAfter (handleUnhandledRejection reason w)
  | SessionRead => worldAfter (getUserSession w)
  | SessionStat kind => worldAfter (updateSessionStats kind w)
  | Sweep => worldAfter (cleanupExpiredSessions w)
  | QueueCompaction => worldAfter (cleanupErrorQueue w)
  | QueueCleared => worldAfter (clearErrorQueue w)
  | FetchCall args => worldAfter (wrappedFetch args w)
  | VitalReported metric => worldAfter (handleMetric metric w)
  | MetricsCleared => worldAfter (clearMetrics w)
  | PerformanceRecorded name value => worldAfter (recordPerformanceMetric name value w)
  end.

(** A page just loaded: what the browser kept in its stores is there
    (and readable by the tracker), nothing is captured yet. *)
Definition loaded (w : World) : Prop :=
  storageSound w ∧ errorQueue w = [] ∧ metrics w = [] ∧ trace w = [].

Inductive reachable `{Env} : World → Prop :=
| reachable_loaded (w : World) : loaded w → reachable w
| reachable_next (h : Happening) (w : World) : reachable w → reachable (happen h w).

(** ** More of the code *)

(** *** What a trace holds *)

(** The calls of the error-tracking SDK in a trace. *)
Definition sentryCalls (t : list Effect) : list SentryCall :=
  omap (λ e, match e with Sentry call => Some call | _ => None end) t.

(** The notes and POSTs of the recording and delivery functions. *)
Definition isDelivery (e : Effect) : Prop :=
  match e with
  | Recorded _ | FetchPost _ _ => True
  | _ => False
  end.

(** A computation that adds to the trace only effects of a given kind,
    whether it returns or throws. *)
Definition emitsOnly {A} (allowed : Effect → Prop) (m : M A) : Prop :=
  ∀ w, ∃ added, trace (worldAfter (m w)) = trace w ++ added ∧ Forall allowed added.

(** The stored session after one more event of a kind was counted at
    [now]. *)
Definition counted (kind : StatKind) (s : UserSession) (now : Z) : UserSession :=
  {| sessionId := sessionId s; userId := userId s; startTime := startTime s;
     lastActivity := now;
     pageViews := match kind with PageView => pageViews s + 1 | ErrorStat => pageViews s end;
     errors := match kind with PageView => errors s | ErrorStat => errors s + 1 end |}.

(** What it means for a text to match a pattern of the configuration:
    to contain the literal, or to begin with it. *)
Definition matches (pattern : RegExp) (s : string) : Prop :=
  match pattern with
  | Unanchored lit => ∃ pre post, s = pre +:+ lit +:+ post
  | AtStart lit => ∃ post, s = lit +:+ post
  end.

(** The message that the filter looks at. *)
Definition messageOf (error : ErrorOrString) : string :=
  match error with
  | OfString s => s
  | OfError e => message e
  end.

(** How many events of a name a computation adds, with the rest of the
    page untouched. *)
Definition addsEvents (counts : string → nat) (w : World) : unit → World → Prop :=
  λ _ w', errorQueue w' = errorQueue w ∧ metrics w' = metrics w ∧
          localStorage w' = localStorage w ∧
          ∀ other, length (customEvents other (trace w'))
                   = (length (customEvents other (trace w)) + counts other)%nat.

(** Effects that stay on the page: anything but a POST. *)
Definition staysLocal (e : Effect) : Prop :=
  match e with
  | FetchPost _ _ => False
  | _ => True
  end.

(** Effects that leave the browser's default handling alone. *)
Definition keepsDefault (e : Effect) : Prop :=
  match e with
  | PreventDefault => False
  | _ => True
  end.

(** The error that the rejection listener makes of a reason. *)
Definition rejectionError (reason : Reason) : JsError :=
  match reason with
  | ErrorReason e => e
  | OtherReason rendering => newError rendering
  end.

(** The order of the ratings, from best to worst. *)
Definition ratingRank (r : Rating) : nat :=
  match r with
  | Good => 0
  | NeedsImprovement => 1
  | Poor => 2
  end.

(** *** The queue under its three operations *)

Inductive QueueOp :=
| Push (error : JsError) (context : option Props)
| Compact
| Clear.

Definition runQueueOp (op : QueueOp) : M unit :=
  match op with
  | Push error context => addToErrorQueue error context
  | Compact => cleanupErrorQueue
  | Clear => clearErrorQueue
  end.

Fixpoint runQueueOps (ops : list QueueOp) : M unit :=
  match ops with
  | [] => mret tt
  | op :: rest => runQueueOp op;; runQueueOps rest
  end.

(** The entries that a run of operations pushed, in order. *)
Definition pushed (ops : list QueueOp) : list QueueEntry :=
  omap (λ op, match op with
              | Push error context => Some {| error := error; context := context |}
              | _ => None
              end) ops.

(** *** The XHR wrapper of [setupNetworkErrorMonitoring]
    (services/errorHandler.ts) *)

Record MonitoringData := { md_method : string; md_url : string; md_startTime : Z }.

(** An [XMLHttpRequest], as far as the wrapper reads and writes it: the
    [_monitoringData] that [open] attaches, the [loadend] listeners that
    [send] has added - each the same closure over the object, so that their
    number stands for them - and the status that the browser has set when
    [loadend] fires (0 when no response arrived). *)
Record Xhr := {
  _monitoringData : option MonitoringData;
  loadendListeners : nat;
  xhr_status : Z;
  xhr_statusText : string;
}.

(** [new XMLHttpRequest()] *)
Definition newXhr : Xhr :=
  {| _monitoringData := None; loadendListeners := 0; xhr_status := 0; xhr_statusText := "" |}.

(** The patched [open]: what it does before it calls the original. *)
Definition xhrOpen (method url : string) (xhr : Xhr) : Xhr :=
  {| _monitoringData := Some {| md_method := method; md_url := url; md_startTime := 0 |};
     loadendListeners := loadendListeners xhr;
     xhr_status := xhr_status xhr; xhr_statusText := xhr_statusText xhr |}.

(** The browser settling the request: it sets the status, then fires
    [loadend]. *)
Definition xhrSettle (status : Z) (statusText : string) (xhr : Xhr) : Xhr :=
  {| _monitoringData := _monitoringData xhr; loadendListeners := loadendListeners xhr;
     xhr_status := status; xhr_statusText := statusText |}.

(** [m], [n] times over. *)
Fixpoint times (n : nat) (m : M unit) : M unit :=
  match n with
  | O => mret tt
  | S k => m;; times k m
  end.

Section MorePage.

Context `{Env}.

(** The patched [send]: what it does before it calls the original. *)
Definition xhrSend (xhr : Xhr) : M Xhr :=
  match _monitoringData xhr with
  | Some data =>
      now ← dateNow;
      mret {| _monitoringData :=
                Some {| md_method := md_method data; md_url := md_url data;
                        md_startTime := now |};
              loadendListeners := S (loadendListeners xhr);
              xhr_status := xhr_status xhr; xhr_statusText := xhr_statusText xhr |}
  | None => mret xhr
  end.

(** The listener that [send] adds for [loadend]. *)
Definition loadendListener (xhr : Xhr) : M unit :=
  match _monitoringData xhr with
  | Some data =>
      now ← dateNow;
      let duration := now - md_startTime data in
      when (400 <=? xhr_status xhr)
        (recordNetworkError (md_url data) (md_method data) (xhr_status xhr)
           (xhr_statusText xhr) duration)
  | None => mret tt
  end.

(** [loadend] fires: every listener added so far runs. *)
Definition xhrLoadend (xhr : Xhr) : M unit :=
  times (loadendListeners xhr) (loadendListener xhr).

(** A request from [open] to [loadend] on an object, settled by the
    browser with a status. *)
Definition xhrRequest (method url : string) (status : Z) (statusText : string) (xhr : Xhr)
  : M Xhr :=
  sent ← xhrSend (xhrOpen method url xhr);
  let finished := xhrSettle status statusText sent in
  xhrLoadend finished;;
  mret finished.

End MorePage.

(** *** The HTTP adapter (lib/http/monitoring.ts) *)

(** [c.toUpperCase()] on one character: the letters a-z move to A-Z, the
    rest of ASCII stays (other alphabets are not modelled). *)
Definition upperAscii (c : Ascii.ascii) : Ascii.ascii :=
  let n := Ascii.nat_of_ascii c in
  if (97 <=? n)%nat && (n <=? 122)%nat then Ascii.ascii_of_nat (n - 32) else c.

Fixpoint toUpperCase (s : string) : string :=
  match s with
  | "" => ""
  | String c rest => String (upperAscii c) (toUpperCase rest)
  end.

(** [s.replace(/\/+/g, '/')]: every run of slashes becomes one slash. *)
Fixpoint collapseSlashes (s : string) : string :=
  match s with
  | "" => ""
  | String c rest =>
      if Ascii.eqb c "/"%char then
        match rest with
        | String c' _ =>
            if Ascii.eqb c' "/"%char then collapseSlashes rest else String c (collapseSlashes rest)
        | "" => String c ""
        end
      else String c (collapseSlashes rest)
  end.

(** [s.replace(/:\//g, '://')]: every colon-slash, from left to right,
    gets a second slash. *)
Fixpoint restoreScheme (s : string) : string :=
  match s with
  | "" => ""
  | String c rest =>
      if Ascii.eqb c ":"%char then
        match rest with
        | String c' rest' =>
            if Ascii.eqb c' "/"%char
            then String ":"%char (String "/"%char (String "/"%char (restoreScheme rest')))
            else String c (restoreScheme rest)
        | "" => String c ""
        end
      else String c (restoreScheme rest)
  end.

(** Whether a text begins with a given character, and a text without
    its first character. *)
Definition headIs (c : Ascii.ascii) (s : string) : bool :=
  match s with
  | String a _ => Ascii.eqb a c
  | "" => false
  end.

Definition behead (s : string) : string :=
  match s with
  | String _ rest => rest
  | "" => ""
  end.

(** No two slashes in a row. *)
Fixpoint noDouble (s : string) : bool :=
  match s with
  | String a rest => negb (Ascii.eqb a "/"%char && headIs "/"%char rest) && noDouble rest
  | "" => true
  end.

(** Two slashes in a row only directly after a colon, and never three;
    [afterColon] tells whether the character before [s] is a colon. *)
Fixpoint tidyFrom (afterColon : bool) (s : string) : bool :=
  match s with
  | String a rest =>
      (if Ascii.eqb a "/"%char && headIs "/"%char rest
       then afterColon && negb (headIs "/"%char (behead rest))
       else true)
      && tidyFrom (Ascii.eqb a ":"%char) rest
  | "" => true
  end.

(** The same, said of the text as a whole: wherever "//" occurs in it, a
    colon stands right before it and no slash right after it. *)
Definition slashesTidy (s : string) : Prop :=
  ∀ pre post, s = pre +:+ "//" +:+ post →
              (∃ pre', pre = pre' +:+ ":") ∧ ∀ post', post ≠ "/" +:+ post'.

(** [AxiosRequestConfig], as far as the adapter reads it; [req_requestId]
    is [config.metadata?.requestId]. *)
Record AxiosRequestConfig := {
  req_url : option string;
  req_baseURL : option string;
  req_method : option string;
  req_requestId : option string;
}.

(** [AxiosError]: the error itself, the response if one arrived, and
    whether a request was made at all. *)
Record AxiosError := {
  ax_error : JsError;
  ax_response : option Response;
  ax_request : bool;
}.

(** [HttpMonitoringAdapter.getFullUrl] *)
Definition getFullUrl (config : AxiosRequestConfig) : string :=
  let joined :=
    restoreScheme (collapseSlashes (default "" (req_baseURL config) +:+ default "" (req_url config))) in
  match req_url config with
  | Some url => if startsWith url "http" then url else joined
  | None => joined
  end.

(** [method.toUpperCase()], the method defaulting to 'GET' when the
    configuration has none. *)
Definition upperMethod (config : AxiosRequestConfig) : string :=
  toUpperCase (default "GET" (req_method config)).

Section Adapter.

Context `{Env}.

(** [HttpMonitoringAdapter.recordRequest] *)
Definition recordRequest (config : AxiosRequestConfig) (response : Response) (startTime : Z)
  : M unit :=
  now ← dateNow;
  let duration := now - startTime in
  let method := upperMethod config in
  let fullUrl := getFullUrl config in
  when (5000 <? duration)
    (recordCustomEvent "slow_request"
       (list_to_map [ ("url", VString fullUrl); ("method", VString method);
                      ("duration", VInt duration); ("status", VInt (status response));
                      ("requestId", optString (req_requestId config)) ]);;
     emit (Sentry (CaptureMessage ("Slow HTTP request: " +:+ method +:+ " " +:+ fullUrl)
             "warning"
             (list_to_map [ ("type", VString "slow_request"); ("method", VString method);
                            ("status", VInt (status response)) ]))));;
  recordCustomEvent "http_request_success"
    (list_to_map [ ("url", VString fullUrl); ("method", VString method);
                   ("status", VInt (status response)); ("duration", VInt duration);
                   ("requestId", optString (req_requestId config)) ]).

(** [HttpMonitoringAdapter.recordError]; [globalErrorHandler] is the
    handler whose queue the page holds. *)
Definition recordError (error : AxiosError) (config : AxiosRequestConfig) (startTime : Z)
  : M unit :=
  now ← dateNow;
  let duration := now - startTime in
  let method := upperMethod config in
  let fullUrl := getFullUrl config in
  match ax_response error with
  | Some response =>
      recordNetworkError fullUrl method (status response) (statusText response) duration;;
      if 500 <=? status response then
        emit (Sentry (CaptureMessage
          ("HTTP Server Error: " +:+ pretty (status response) +:+ " " +:+ statusText response)
          "error"
          (list_to_map [ ("type", VString "http_server_error"); ("method", VString method);
                         ("status", VInt (status response)) ])))
      else if 400 <=? status response then
        emit (Sentry (CaptureMessage
          ("HTTP Client Error: " +:+ pretty (status response) +:+ " " +:+ statusText response)
          "warning"
          (list_to_map [ ("type", VString "http_client_error"); ("method", VString method);
                         ("status", VInt (status response)) ])))
      else mret tt
  | None =>
      if ax_request error then
        recordNetworkError fullUrl method 0 "Network Error" duration;;
        reportError (ax_error error)
          (Some (list_to_map [ ("type", VString "http_network_error");
                               ("url", VString fullUrl); ("method", VString method);
                               ("duration", VInt duration);
                               ("requestId", optString (req_requestId config)) ]));;
        emit (Sentry (CaptureException (ax_error error)
                (list_to_map [ ("type", VString "network_error"); ("method", VString method) ])
                None))
      else
        reportError (ax_error error)
          (Some (list_to_map [ ("type", VString "http_config_error");
                               ("url", VString fullUrl); ("method", VString method);
                               ("requestId", optString (req_requestId config)) ]))
  end;;
  recordCustomEvent "http_request_error"
    (list_to_map [ ("url", VString fullUrl); ("method", VString method);
                   ("status", VInt (from_option status 0 (ax_response error)));
                   ("duration", VInt duration);
                   ("errorType", VString (match ax_response error with
                                          | Some _ => "response_error"
                                          | None => if ax_request error then "network_error"
                                                    else "config_error"
                                          end));
                   ("requestId", optString (req_requestId config)) ]).

End Adapter.

(** *** More concrete pages *)

(** A local page whose clock advances by a second from reading to
    reading, and the session that a first visit creates on it. *)
Definition tickingPage : Env :=
  {| config := monitoringConfig false None None;
     clock := λ n, 1700000000000 + 1000 * Z.of_nat n;
     entropy := λ _, "k3x9q0a1z";
     href := "https://app.example/"; userAgent := "ExampleAgent/1.0";
     transport := λ _, Resolves {| status := 200; statusText := "OK" |} |}.

Definition firstSession : UserSession :=
  {| sessionId := "1700000000000-k3x9q0a1z"; userId := None;
     startTime := 1700000001000; lastActivity := 1700000002000;
     pageViews := 1; errors := 0 |}.

(** Two LCP reports at present-day readings of the clock. *)
Definition earlyLCP : WebVitalsMetric :=
  {| name := LCP; value := 5000; delta := 5000; id := "v3-1"; timestamp := 1700000000000 |}.

Definition lateLCP : WebVitalsMetric :=
  {| name := LCP; value := 3000; delta := -2000; id := "v3-1"; timestamp := 1700000000500 |}.

(** An XHR object on which a GET has been opened and sent. *)
Definition sentXhr `{Env} : Xhr :=
  match xhrSend (xhrOpen "GET" "/api/users" newXhr) freshWorld with
  | Returns xhr _ => xhr
  | Throws _ _ => newXhr
  end.

(** A request that failed before any response, with a message of its
    own. *)
Definition timedOut : AxiosError :=
  {| ax_error := newError "timeout of 5000ms exceeded"; ax_response := None;
     ax_request := true |}.

Definition postOrder : AxiosRequestConfig :=
  {| req_url := Some "/orders"; req_baseURL := Some "https://api.example.com/";
     req_method := Some "post"; req_requestId := Some "1700000000000-r1" |}.

(** ** Concrete pages used as examples *)

(** The configuration of a development build with no endpoint and no
    DSN in its environment: the monitoring layer works locally only. *)
Definition localConfig : MonitoringConfig := monitoringConfig false None None.

(** A production configuration with a sample rate and an endpoint of
    one's choice. *)
Definition exampleConfig (rate : Q) (endpoint : option string) : MonitoringConfig :=
  {| enableErrorTracking := true; enablePerformanceTracking := true; enableWebVitals := true;
     sampleRate := rate; environment := Production; apiEndpoint := endpoint;
     sentryDsn := None |}.

(** A page whose clock reads [readings n] at the n-th reading and whose
    transport settles every call as [settle] says. *)
Definition examplePage (cfg : MonitoringConfig) (readings : nat → Z) (settle : FetchArgs → Outcome)
  : Env :=
  {| config := cfg; clock := readings; entropy := λ _, "k3x9q0a1z";
     href := "https://app.example/"; userAgent := "ExampleAgent/1.0";
     transport := settle |}.

Definition hour : Z := 60 * 60 * 1000.

(** A tab that already has a session, stored one hour before the clock's
    reading [now]. *)
Definition visitedSession (now : Z) : UserSession :=
  {| sessionId := "7-k3x9q0a1z"; userId := None; startTime := now - 2 * hour;
     lastActivity := now - hour; pageViews := 3; errors := 1 |}.

Definition visitedWorld (now : Z) : World :=
  {| sessionStorage := {[ "monitoring_session_id" := "7-k3x9q0a1z" ]};
     localStorage := {[ "session_7-k3x9q0a1z" := SessionJson (visitedSession now) ]};
     errorQueue := []; metrics := []; trace := []; dateReads := 0%nat; randomReads := 0%nat |}.

(** A store with a corrupt entry and a session last active two hours
    before [now]. *)
Definition staleSession (now : Z) : UserSession :=
  {| sessionId := "b"; userId := None; startTime := now - 3 * hour;
     lastActivity := now - 2 * hour; pageViews := 1; errors := 0 |}.

Definition mixedStore (now : Z) : gmap string Stored :=
  <["session_a" := Unparsable "{oops"]> {[ "session_b" := SessionJson (staleSession now) ]}.

Definition mixedWorld (now : Z) : World :=
  {| sessionStorage := ∅; localStorage := mixedStore now;
     errorQueue := []; metrics := []; trace := []; dateReads := 0%nat; randomReads := 0%nat |}.

(** A page that is configured with an endpoint and a sample rate of 0,
    and a run of [n] manual reports of distinct errors on it. *)
Definition unsampledPage : Env :=
  examplePage (exampleConfig 0 (Some "https://collector.example"))
    (λ n, 1700000000000 + Z.of_nat n) (λ _, Resolves {| status := 200; statusText := "OK" |}).

Definition failure (n : nat) : JsError * option Props :=
  (newError ("failure " +:+ pretty n), None).

Definition failures (n : nat) : list (JsError * option Props) := failure <$> seq 0 n.

(** A page on which every call takes six seconds and ends as [settle]
    says, and a GET of a resource on it. *)
Definition slowPage (settle : FetchArgs → Outcome) : Env :=
  examplePage localConfig (λ n, 1700000000000 + 6000 * Z.of_nat n) settle.

Definition notFound : Response := {| status := 404; statusText := "Not Found" |}.

Definition failedToFetch : JsError := newError "Failed to fetch".

Definition getUsers : FetchArgs := {| input := UrlText "/api/users"; initMethod := None |}.

(** A development page whose system clock is set back by a second after
    its first reading, and two LCP reports of one page load on it: the
    first is stamped before the clock is set back, the second after. *)
Definition steppedBackPage : Env :=
  examplePage localConfig
    (λ n, match n with O => 1700000001000 | S _ => 1700000000000 end)
    (λ _, Resolves {| status := 200; statusText := "OK" |}).

Definition twoLCPReports : Res unit :=
  (onVital (H := steppedBackPage) LCP 2500 2500 "v3-1";;
   onVital (H := steppedBackPage) LCP 4500 2000 "v3-1") freshWorld.

(** A tab whose stored session does not parse. *)
Definition unreadableWorld : World :=
  {| sessionStorage := {[ "monitoring_session_id" := "7-k3x9q0a1z" ]};
     localStorage := {[ "session_7-k3x9q0a1z" := Unparsable "{oops" ]};
     errorQueue := []; metrics := []; trace := []; dateReads := 0%nat; randomReads := 0%nat |}.

(** Sixty reports, a compaction of the queue, twenty reports more. *)
Definition reportsAroundCompaction `{Env} : M unit :=
  reportAll (failures 60);; cleanupErrorQueue;; reportAll (failures 20).


(** * Properties *)

(** ** The rating function *)

Lemma Qle_bool_false (x y : Q) : Qle_bool x y = false ↔ (y < x)%Q.
Proof.
  split.
  - intros E. apply Qnot_le_lt. intros Hle. apply Qle_bool_iff in Hle. congruence.
  - intros Hlt. destruct (Qle_bool x y) eqn:E; [|done].
    apply Qle_bool_iff in E. exfalso. eapply Qlt_not_le; eauto.
Qed.

(** The three-way split that [getRating] makes on a pair of bounds. *)
Lemma rating_split (v g n : Q) :
  (g <= n)%Q →
  let r := if Qle_bool v g then Good else if Qle_bool v n then NeedsImprovement else Poor in
  ((v <= g)%Q → r = Good) ∧
  ((g < v)%Q ∧ (v <= n)%Q → r = NeedsImprovement) ∧
  ((n < v)%Q → r = Poor).
Proof.
  intros Hgn r. subst r. repeat split.
  - intros Hv. apply Qle_bool_iff in Hv. by rewrite Hv.
  - intros [Hg Hn]. apply Qle_bool_false in Hg. apply Qle_bool_iff in Hn. by rewrite Hg, Hn.
  - intros Hn.
    assert (Hg : (g < v)%Q) by (eapply Qle_lt_trans; eauto).
    apply Qle_bool_false in Hg, Hn. by rewrite Hg, Hn.
Qed.

(** C5: [getRating] applies the fixed thresholds of the specification's
    table with inclusive upper bounds.  The five sample values of LCP
    rate as stated (2500 is still good, 2500.001 is not), and for each of
    LCP, FID, CLS, FCP and TTFB a value at or below the first bound is
    good, one above it and at or below the second needs improvement, and
    one above the second is poor. *)
Theorem getRating_fixed_thresholds :
  getRating LCP 2000 = Good ∧
  getRating LCP 3000 = NeedsImprovement ∧
  getRating LCP 5000 = Poor ∧
  getRating LCP 2500 = Good ∧
  getRating LCP 2500.001 = NeedsImprovement ∧
  ∀ (n : VitalName) (v : Q),
    ((v <= (ratingTable n).1)%Q → getRating n v = Good) ∧
    (((ratingTable n).1 < v)%Q ∧ (v <= (ratingTable n).2)%Q → getRating n v = NeedsImprovement) ∧
    (((ratingTable n).2 < v)%Q → getRating n v = Poor).
Proof.
  do 5 (split; [reflexivity|]).
  intros n v. repeat split.
  all: destruct n; unfold getRating; simpl; intros Hv.
  all: match goal with
       | |- (if Qle_bool ?x ?g then Good
             else if Qle_bool ?x ?m then NeedsImprovement else Poor) = _ =>
           assert (Hgn : (g <= m)%Q) by (vm_compute; discriminate);
           destruct (rating_split x g m Hgn) as (H1 & H2 & H3)
       end.
  all: first [ exact (H1 Hv) | exact (H2 Hv) | exact (H3 Hv) ].
Qed.

(** ** The summary of the collected metrics *)

(** C3, at an input where the code departs from the claim.  The guard of
    [getMetricsSummary] compares the timestamp of a record with the value
    of the record kept, not with its timestamp; every record is stamped
    with [Date.now()], which exceeds any value, so the record received
    last is kept whatever the timestamps are.  On a page whose clock is
    set back between two LCP reports, both callbacks return, the
    collector holds the two records in the order received - the first
    stamped a second later than the second - and the summary gives the
    value and rating of the second, the one with the earlier timestamp;
    the most recently timestamped record is the first. *)
Theorem getMetricsSummary_follows_receipt_not_timestamp :
  settled twoLCPReports = inl tt ∧
  metrics (worldAfter twoLCPReports)
  = [ {| name := LCP; value := 2500; delta := 2500; id := "v3-1";
         timestamp := 1700000001000 |};
      {| name := LCP; value := 4500; delta := 2000; id := "v3-1";
         timestamp := 1700000000000 |} ]%Q ∧
  getMetricsSummary (metrics (worldAfter twoLCPReports)) !! "LCP"
    = Some {| summaryValue := 4500; summaryRating := Poor |} ∧
  entryOf <$> mostRecent LCP (metrics (worldAfter twoLCPReports))
    = Some {| summaryValue := 2500; summaryRating := Good |}.
Proof. repeat split; vm_compute; reflexivity. Qed.

(** ** Where the summary does follow the latest report *)

(** The record of name [n] received last. *)
Lemma summary_domain (ms : list WebVitalsMetric) (key : string) (kept : SummaryEntry) :
  getMetricsSummary ms !! key = Some kept →
  ∃ m, m ∈ ms ∧ nameString (name m) = key ∧ kept = entryOf m.
Proof.
  unfold getMetricsSummary. revert key kept.
  induction ms as [|m ms IH] using rev_ind; intros key kept; simpl.
  - by rewrite lookup_empty.
  - rewrite fold_left_app. simpl. unfold summaryStep at 1.
    set (summary := fold_left summaryStep ms ∅) in *.
    assert (Hold : summary !! key = Some kept →
                   ∃ m0, m0 ∈ ms ++ [m] ∧ nameString (name m0) = key ∧ kept = entryOf m0).
    { intros Hk. destruct (IH key kept Hk) as (m0 & Hin & Hname & Hkept).
      exists m0. split; [|done]. apply elem_of_app. by left. }
    assert (Hnew : <[nameString (name m) := entryOf m]> summary !! key = Some kept →
                   ∃ m0, m0 ∈ ms ++ [m] ∧ nameString (name m0) = key ∧ kept = entryOf m0).
    { destruct (decide (nameString (name m) = key)) as [<-|Hne].
      - rewrite lookup_insert_eq. intros [= <-]. exists m.
        split; [|done]. apply elem_of_app. right. by apply list_elem_of_singleton.
      - by rewrite lookup_insert_ne. }
    destruct (summary !! nameString (name m)) as [old|]; [|exact Hnew].
    destruct (negb _); [exact Hnew|exact Hold].
Qed.

(** X22: when every timestamp exceeds every reported value - as readings of a
    present-day clock in milliseconds exceed any plausible metric value -
    the guard of [getMetricsSummary] always holds and the summary carries,
    for each name, the record received last. *)
Lemma getMetricsSummary_last_received (ms : list WebVitalsMetric) (m : WebVitalsMetric) :
  (∀ a b, a ∈ ms ++ [m] → b ∈ ms ++ [m] → (value a < inject_Z (timestamp b))%Q) →
  getMetricsSummary (ms ++ [m]) !! nameString (name m) = Some (entryOf m) ∧
  ∀ key, key ≠ nameString (name m) →
         getMetricsSummary (ms ++ [m]) !! key = getMetricsSummary ms !! key.
Proof.
  intros Hclock. unfold getMetricsSummary. rewrite fold_left_app. simpl.
  fold (getMetricsSummary ms). unfold summaryStep. fold (entryOf m).
  destruct (getMetricsSummary ms !! nameString (name m)) as [kept|] eqn:Hkept.
  - destruct (summary_domain ms _ _ Hkept) as (m0 & Hin & _ & ->).
    assert (Hguard : Qle_bool (inject_Z (timestamp m)) (summaryValue (entryOf m0)) = false).
    { apply Qle_bool_false. simpl. apply Hclock; apply elem_of_app; [by left|right].
      by apply list_elem_of_singleton. }
    rewrite Hguard. simpl. split; [apply lookup_insert_eq|].
    intros key Hne. by rewrite lookup_insert_ne.
  - split; [apply lookup_insert_eq|].
    intros key Hne. by rewrite lookup_insert_ne.
Qed.

(** ** Running code in the monad *)

Lemma bind_returns {A B} (m : M A) (f : A → M B) (w w1 : World) (a : A) :
  m w = Returns a w1 → (m ≫= f) w = f a w1.
Proof. intros E. unfold mbind, M_bind. by rewrite E. Qed.

Lemma bind_throws {A B} (m : M A) (f : A → M B) (w w1 : World) (e : JsError) :
  m w = Throws e w1 → (m ≫= f) w = Throws e w1.
Proof. intros E. unfold mbind, M_bind. by rewrite E. Qed.

Lemma startsWith_append (pre s : string) : startsWith (pre +:+ s) pre = true.
Proof.
  induction pre as [|a pre IH]; simpl; [by destruct s|].
  by rewrite Ascii.eqb_refl.
Qed.

(** ** Delivery without an endpoint *)

(** C9: with no endpoint configured (absent, or the empty text), each of
    the delivery functions - [sendMetricToService], [sendErrorToService],
    [sendEventToService] and the collector's [sendMetric] - returns
    without throwing and leaves the page as it was, for every record: the
    trace gains no POST. *)
Theorem delivery_skipped_without_endpoint `{Env} :
  truthy (apiEndpoint config) = None →
  ∀ (w : World),
    (∀ metric, sendMetricToService metric w = Returns tt w) ∧
    (∀ error, sendErrorToService error w = Returns tt w) ∧
    (∀ event, sendEventToService event w = Returns tt w) ∧
    (∀ metric rating, sendMetric metric rating w = Returns tt w).
Proof.
  intros Hno w.
  unfold sendMetricToService, sendErrorToService, sendEventToService, sendMetric.
  rewrite Hno. done.
Qed.

Lemma delivery_skipped_without_endpoint_witness :
  sendEventToService (H := examplePage localConfig (λ _, 0) (λ _, Rejects typeError))
    {| event_name := "web_vital"; event_properties := ∅; event_timestamp := 0;
       event_sessionId := "0-k3x9q0a1z" |} freshWorld
  = Returns tt freshWorld.
Proof.
  apply (delivery_skipped_without_endpoint
           (H := examplePage localConfig (λ _, 0) (λ _, Rejects typeError))).
  reflexivity.
Defined.

(** ** The session tracker *)

(** C10: on a page whose tab holds a session id under which a session is
    stored, [getUserSession] returns that session with [lastActivity] set
    to the reading of the clock and every other field as stored, and
    after the call [localStorage] holds the returned record - with the
    new [lastActivity] - under the same key; no other key changes, and
    nothing else of the page but the count of clock readings.  So reading
    the current session, with no page view or error recorded, advances
    the stored [lastActivity]. *)
Theorem getUserSession_touches_lastActivity `{Env} (w : World) (sid : string) (s : UserSession) :
  truthy (sessionStorage w !! "monitoring_session_id") = Some sid →
  localStorage w !! ("session_" +:+ sid) = Some (SessionJson s) →
  ∃ (s' : UserSession) (w' : World),
    getUserSession w = Returns s' w' ∧
    lastActivity s' = clock (dateReads w) ∧
    sessionId s' = sessionId s ∧ userId s' = userId s ∧ startTime s' = startTime s ∧
    pageViews s' = pageViews s ∧ errors s' = errors s ∧
    localStorage w' !! ("session_" +:+ sid) = Some (SessionJson s') ∧
    (∀ key, key ≠ "session_" +:+ sid → localStorage w' !! key = localStorage w !! key) ∧
    sessionStorage w' = sessionStorage w ∧ errorQueue w' = errorQueue w ∧
    metrics w' = metrics w ∧ trace w' = trace w ∧
    dateReads w' = S (dateReads w).
Proof.
  intros Hsid Hstored.
  exists (setLastActivity (clock (dateReads w)) s).
  eexists. split.
  { unfold getUserSession.
    erewrite bind_returns; last first.
    { unfold getSessionId. erewrite bind_returns by reflexivity. by rewrite Hsid. }
    erewrite bind_returns by reflexivity.
    rewrite Hstored. reflexivity. }
  simpl. do 6 (split; [reflexivity|]).
  split; [by rewrite lookup_insert_eq|].
  split; [intros key Hne; by rewrite lookup_insert_ne|].
  done.
Qed.

Lemma getUserSession_touches_lastActivity_witness :
  ∃ (s' : UserSession) (w' : World),
    getUserSession (H := examplePage localConfig (λ _, 90000000) (λ _, Rejects typeError))
      (visitedWorld 90000000)
    = Returns s' w' ∧
    lastActivity s' = 90000000 ∧
    sessionId s' = "7-k3x9q0a1z" ∧ userId s' = None ∧ startTime s' = 90000000 - 2 * hour ∧
    pageViews s' = 3 ∧ errors s' = 1 ∧
    localStorage w' !! "session_7-k3x9q0a1z" = Some (SessionJson s') ∧
    (∀ key, key ≠ "session_7-k3x9q0a1z" →
            localStorage w' !! key = localStorage (visitedWorld 90000000) !! key) ∧
    sessionStorage w' = sessionStorage (visitedWorld 90000000) ∧
    errorQueue w' = [] ∧ metrics w' = [] ∧ trace w' = [] ∧
    dateReads w' = 1%nat.
Proof.
  apply (getUserSession_touches_lastActivity
           (H := examplePage localConfig (λ _, 90000000) (λ _, Rejects typeError))
           (visitedWorld 90000000) "7-k3x9q0a1z" (visitedSession 90000000)).
  - vm_compute. reflexivity.
  - vm_compute. reflexivity.
Defined.

(** ** The event filter *)

(** C8: [shouldIgnoreError] is a function of the message, the URL and the
    fixed [errorFilters] alone (it lives outside the monad of effects).
    A message that matches one of the configured message patterns is
    ignored, whatever the URL; "Script error" is ignored and "Cannot read
    property x of undefined" is not.  An error that the filter ignores
    leaves the page, and so the error queue, exactly as it was, through
    each of the three ways in: [reportError], [handleGlobalError] and
    [handleUnhandledRejection]. *)
Theorem shouldIgnoreError_filters `{Env} :
  (∀ (pattern : RegExp) (msg : string) (url : option string),
     In pattern (ignoreMessages errorFilters) → test pattern msg = true →
     shouldIgnoreError (OfString msg) url = true ∧
     ∀ stack, shouldIgnoreError (OfError {| message := msg; stack := stack |}) url = true) ∧
  shouldIgnoreError (OfString "Script error") None = true ∧
  shouldIgnoreError (OfString "Cannot read property x of undefined") None = false ∧
  (∀ (error : JsError) (context : option Props) (w : World),
     shouldIgnoreError (OfError error) None = true →
     reportError error context w = Returns tt w) ∧
  (∀ (event : ErrorEvent) (w : World),
     shouldIgnoreError (OfError (default (newError (ev_message event)) (ev_error event)))
       (Some (ev_filename event)) = true →
     handleGlobalError event w = Returns tt w) ∧
  (∀ (error : JsError) (w : World),
     shouldIgnoreError (OfError error) None = true →
     handleUnhandledRejection (ErrorReason error) w = Returns tt w) ∧
  (∀ (rendering : string) (w : World),
     shouldIgnoreError (OfError (newError rendering)) None = true →
     handleUnhandledRejection (OtherReason rendering) w = Returns tt w).
Proof.
  split; [|split; [reflexivity|split; [reflexivity|]]].
  - intros pattern msg url Hin Htest.
    assert (Hex : existsb (λ p, test p msg) (ignoreMessages errorFilters) = true).
    { apply existsb_exists. eauto. }
    split; [|intros stack]; unfold shouldIgnoreError; simpl message; by rewrite Hex.
  - repeat split.
    + intros error context w Hig. unfold reportError. by rewrite Hig.
    + intros event w Hig. unfold handleGlobalError. by rewrite Hig.
    + intros error w Hig. unfold handleUnhandledRejection. by rewrite Hig.
    + intros rendering w Hig. unfold handleUnhandledRejection. by rewrite Hig.
Qed.

(** ** The sweep of expired sessions *)

Lemma cleanupKey_unfold (now : Z) (key : string) (store : gmap string Stored) :
  cleanupKey now key store
  = match store !! key with
    | Some v => if swept now key v then delete key store else store
    | None => store
    end.
Proof.
  unfold cleanupKey, swept.
  destruct (startsWith key "session_"); simpl; [|by destruct (store !! key)].
  destruct (store !! key) as [[]|]; done.
Qed.

(** The loop over a list of keys decides each listed key on its own
    entry and touches no other key. *)
Lemma cleanup_loop_lookup (now : Z) (keys : list string) (store : gmap string Stored) (k : string) :
  fold_left (λ live key, cleanupKey now key live) keys store !! k
  = match store !! k with
    | Some v => if bool_decide (k ∈ keys) && swept now k v then None else Some v
    | None => None
    end.
Proof.
  revert store. induction keys as [|key keys IH]; intros store; simpl.
  - by destruct (store !! k).
  - rewrite IH, cleanupKey_unfold. destruct (decide (k = key)) as [->|Hne].
    + rewrite (bool_decide_eq_true_2 (key ∈ key :: keys)) by apply list_elem_of_here.
      destruct (store !! key) as [v|] eqn:Hk.
      * destruct (swept now key v) eqn:Hs.
        -- by rewrite lookup_delete_eq.
        -- rewrite Hk, Hs. by rewrite andb_false_r.
      * by rewrite Hk.
    + assert (Hkeys : bool_decide (k ∈ key :: keys) = bool_decide (k ∈ keys)).
      { apply bool_decide_ext. rewrite elem_of_cons. split; [intros [?|?]; [congruence|done] | by right]. }
      rewrite Hkeys.
      destruct (store !! key) as [v|]; [|done].
      destruct (swept now key v); [|done].
      by rewrite lookup_delete_ne.
Qed.

(** The sweep as a whole: one reading of the clock, each entry decided on
    its own, nothing else of the page touched. *)
Lemma cleanupExpiredSessions_run `{Env} (w : World) :
  ∃ w' : World,
    cleanupExpiredSessions w = Returns tt w' ∧
    (∀ key, localStorage w' !! key
            = match localStorage w !! key with
              | Some v => if swept (clock (dateReads w)) key v then None else Some v
              | None => None
              end) ∧
    sessionStorage w' = sessionStorage w ∧ errorQueue w' = errorQueue w ∧
    metrics w' = metrics w ∧ trace w' = trace w.
Proof.
  eexists. split; [reflexivity|]. simpl.
  split; [|done].
  intros key. rewrite cleanup_loop_lookup.
  destruct (localStorage w !! key) as [v|] eqn:Hk; [|done].
  rewrite bool_decide_eq_true_2; [done|].
  apply elem_of_elements, elem_of_dom. eauto.
Qed.

(** The sweep keeps the store sound. *)
Lemma cleanupExpiredSessions_sound `{Env} (w : World) :
  storageSound w →
  returnsWith (cleanupExpiredSessions w) (λ _ w', storageSound w' ∧ captureKept w w').
Proof.
  intros Hs.
  destruct (cleanupExpiredSessions_run w) as (w' & -> & Hlookup & _ & Hq & Hm & Ht).
  simpl. split; [|done].
  intros key Hkey. rewrite Hlookup. specialize (Hs key Hkey).
  destruct (localStorage w !! key) as [v|]; [|done].
  by destruct (swept _ key v).
Qed.

(** C2, as the code has it: [cleanupExpiredSessions] takes no maximal
    age (it is fixed at 24 hours) and returns nothing.  Whatever the
    store holds - session records, and texts that are empty, do not
    parse, or parse to [null], a number, a string or a boolean - it
    reads the clock once and deletes exactly the entries under a
    [session_] key that do not parse, or parse to [null], or hold a
    session with [now - lastActivity > 24h]; every other entry stays as
    it was, and so does the rest of the page.  A session last active 25
    hours ago is removed, one last active an hour ago is retained. *)
Theorem cleanupExpiredSessions_sweeps `{Env} (w : World) :
  ∃ w' : World,
    cleanupExpiredSessions w = Returns tt w' ∧
    (∀ key, localStorage w' !! key
            = match localStorage w !! key with
              | Some v => if swept (clock (dateReads w)) key v then None else Some v
              | None => None
              end) ∧
    (∀ key v,
       swept (clock (dateReads w)) key v = true
       ↔ startsWith key "session_" = true ∧
         ((∃ text, v = Unparsable text) ∨ v = NullJson ∨
          ∃ session, v = SessionJson session ∧
                     maxAge < clock (dateReads w) - lastActivity session)) ∧
    sessionStorage w' = sessionStorage w ∧ errorQueue w' = errorQueue w ∧
    metrics w' = metrics w ∧ trace w' = trace w ∧
    (∀ key session,
       startsWith key "session_" = true →
       localStorage w !! key = Some (SessionJson session) →
       (lastActivity session = clock (dateReads w) - 25 * hour → localStorage w' !! key = None) ∧
       (lastActivity session = clock (dateReads w) - hour →
        localStorage w' !! key = Some (SessionJson session))).
Proof.
  destruct (cleanupExpiredSessions_run w) as (w' & Hrun & Hlookup & Hss & Hq & Hm & Ht).
  exists w'. do 2 (split; [done|]).
  split.
  { intros key v. unfold swept. rewrite andb_true_iff. split.
    - intros [Hpre Hv]. split; [done|].
      destruct v as [|text|text| |session]; try done.
      + left. by exists text.
      + by right; left.
      + right; right. exists session. split; [done|]. by apply Z.ltb_lt.
    - intros [Hpre [[text ->]|[->|(session & -> & Hold)]]]; split; try done.
      by apply Z.ltb_lt. }
  do 4 (split; [done|]).
  intros key session Hpre Hk. rewrite Hlookup, Hk. unfold swept. rewrite Hpre. simpl.
  set (now := clock (dateReads w)).
  split; intros ->.
  - replace (now - (now - 25 * hour)) with (25 * hour) by lia. reflexivity.
  - replace (now - (now - hour)) with hour by lia. reflexivity.
Qed.

(** C2, where the claim as stated fails.  On a store with a corrupt entry
    under [session_a] and a session under [session_b] last active two
    hours ago, the code returns nothing, deletes the corrupt entry and
    keeps the session.  The sweep of the claim with a maximal age of one
    hour would delete the session, keep the corrupt entry and return 1;
    with 24 hours it would delete nothing and return 0. *)
Lemma cleanupExpiredSessions_is_not_the_stated_sweep :
  cleanupExpiredSessions
    (H := examplePage localConfig (λ _, 90000000) (λ _, Rejects typeError))
    (mixedWorld 90000000)
  = Returns tt (withLocalStorage (λ _, {[ "session_b" := SessionJson (staleSession 90000000) ]})
                  (withDateReads S (mixedWorld 90000000))) ∧
  sweep_expired_spec hour 90000000 (mixedStore 90000000)
  = ({[ "session_a" := Unparsable "{oops" ]}, 1%nat) ∧
  sweep_expired_spec (24 * hour) 90000000 (mixedStore 90000000)
  = (mixedStore 90000000, 0%nat).
Proof. repeat split; vm_compute; reflexivity. Qed.

(** ** Reports and the error queue *)

Lemma returnsWith_bind {A B} (m : M A) (f : A → M B) (w : World)
    (mid : A → World → Prop) (post : B → World → Prop) :
  returnsWith (m w) mid →
  (∀ a w1, mid a w1 → returnsWith (f a w1) post) →
  returnsWith ((m ≫= f) w) post.
Proof.
  unfold mbind, M_bind. destruct (m w) as [a w1|e w1]; simpl; [|done].
  intros Hmid Hf. by apply Hf.
Qed.

Lemma returnsWith_weaken {A} (r : Res A) (P Q : A → World → Prop) :
  returnsWith r P → (∀ a w, P a w → Q a w) → returnsWith r Q.
Proof. destruct r; simpl; [|done]. intros HP HPQ. by apply HPQ. Qed.

Lemma returnsWith_inv {A} (r : Res A) (P : A → World → Prop) :
  returnsWith r P → ∃ a w, r = Returns a w ∧ P a w.
Proof. destruct r as [a w|]; simpl; [|done]. eauto. Qed.

Lemma captureKept_refl (w : World) : captureKept w w.
Proof. by repeat split. Qed.

Lemma storageSound_insert (w : World) (key : string) (s : UserSession) :
  storageSound w → storageSound (withLocalStorage <[key := SessionJson s]> w).
Proof.
  intros Hs k Hk. simpl. destruct (decide (key = k)) as [->|Hne].
  - by rewrite lookup_insert_eq.
  - rewrite lookup_insert_ne by done. by apply Hs.
Qed.

Lemma storageSound_same (w w' : World) :
  localStorage w' = localStorage w → storageSound w → storageSound w'.
Proof. intros E Hs k Hk. rewrite E. by apply Hs. Qed.

Section Reports.

Context `{Env}.

Lemma getSessionId_quiet (w : World) :
  returnsWith (getSessionId w)
    (λ _ w', captureKept w w' ∧ localStorage w' = localStorage w).
Proof.
  unfold getSessionId, get, mbind, M_bind. simpl.
  destruct (truthy (sessionStorage w !! "monitoring_session_id")); simpl.
  - split; [apply captureKept_refl | done].
  - split; [|done]. by repeat split.
Qed.

Lemma getUserSession_sound (w : World) :
  storageSound w →
  returnsWith (getUserSession w) (λ _ w', captureKept w w' ∧ storageSound w').
Proof.
  intros Hs. unfold getUserSession.
  eapply returnsWith_bind; [apply getSessionId_quiet|].
  intros sid w1 [Hk Hls]. simpl.
  assert (Hs1 : storageSound w1) by (by apply (storageSound_same w)).
  pose proof (Hs1 ("session_" +:+ sid) (startsWith_append _ _)) as Hentry.
  unfold get, mbind, M_bind at 1. simpl.
  destruct (localStorage w1 !! ("session_" +:+ sid)) as [[| | | |s]|] eqn:E; try done; simpl.
  all: split; [|by apply storageSound_insert].
  all: destruct Hk as (?&?&?); by repeat split.
Qed.

Lemma updateSessionStats_sound (type : StatKind) (w : World) :
  storageSound w →
  returnsWith (updateSessionStats type w) (λ _ w', captureKept w w' ∧ storageSound w').
Proof.
  intros Hs. unfold updateSessionStats.
  eapply returnsWith_bind; [by apply getUserSession_sound|].
  intros session w1 [Hk Hs1]. simpl.
  unfold dateNow, modify, mbind, M_bind. simpl.
  split; [|by apply storageSound_insert, (storageSound_same w1)].
  destruct Hk as (?&?&?). by repeat split.
Qed.

Lemma formatErrorInfo_quiet (error : JsError) (componentStack boundary : option string)
    (w : World) :
  returnsWith (formatErrorInfo error componentStack boundary w)
    (λ _ w', captureKept w w' ∧ localStorage w' = localStorage w).
Proof.
  unfold formatErrorInfo.
  erewrite bind_returns by reflexivity.
  eapply returnsWith_bind; [apply getSessionId_quiet|].
  intros sid w1 [Hk Hls]. simpl. done.
Qed.

(** What a delivery adds to the POSTs of the trace. *)
Lemma recordCustomEvent_posts (name : string) (properties : Props) (w : World) :
  returnsWith (recordCustomEvent name properties w)
    (λ _ w', errorQueue w' = errorQueue w ∧ metrics w' = metrics w ∧
             localStorage w' = localStorage w ∧
             ∃ event, event_name event = name ∧ event_properties event = properties ∧
               trace w' = trace w ++ Recorded (EventBody event) ::
                 match truthy (apiEndpoint config) with
                 | Some endpoint => [FetchPost (endpoint +:+ "/events") (EventBody event)]
                 | None => []
                 end).
Proof.
  unfold recordCustomEvent.
  erewrite bind_returns by reflexivity.
  eapply returnsWith_bind; [apply getSessionId_quiet|].
  intros sid w1 [(Hq & Hm & Ht) Hls]. simpl in *.
  unfold sendEventToService, emit, modify, mbind, M_bind. simpl.
  destruct (truthy (apiEndpoint config)) as [endpoint|]; simpl.
  all: do 3 (split; [done|]).
  all: exists {| event_name := name; event_properties := properties;
                 event_timestamp := clock (dateReads w); event_sessionId := sid |}.
  all: do 2 (split; [reflexivity|]); simpl.
  all: rewrite Ht; by rewrite <- ?app_assoc.
Qed.

Lemma posts_app (t1 t2 : list Effect) : posts (t1 ++ t2) = posts t1 ++ posts t2.
Proof. apply omap_app. Qed.

Lemma addToErrorQueue_enqueue (error : JsError) (context : option Props) (w : World) :
  addToErrorQueue error context w
  = Returns tt (withErrorQueue (λ q, enqueue q {| error := error; context := context |}) w).
Proof.
  unfold addToErrorQueue, enqueue, when, get, modify, mbind, M_bind, mret, M_ret.
  destruct w as [ss ls q ms t d r]. unfold withErrorQueue. simpl.
  by destruct (bool_decide (maxQueueSize ≤ length q)%nat).
Qed.

Lemma processError_enqueues (error : JsError) (context : Props) (info : ErrorInfo) (w : World) :
  storageSound w →
  returnsWith (processError error context info w)
    (λ _ w', storageSound w' ∧ metrics w' = metrics w ∧
             errorQueue w' = enqueue (errorQueue w) {| error := error; context := Some context |} ∧
             ∃ event, event_name event = "error_occurred" ∧
               posts (trace w') = posts (trace w) ++
                 match truthy (apiEndpoint config) with
                 | Some endpoint => [(endpoint +:+ "/events", EventBody event)]
                 | None => []
                 end).
Proof.
  intros Hs. unfold processError.
  eapply returnsWith_bind; [by apply (updateSessionStats_sound ErrorStat)|].
  intros [] w1 [(Hq & Hm & Ht) Hs1]. simpl.
  erewrite bind_returns by apply addToErrorQueue_enqueue.
  do 2 erewrite bind_returns by reflexivity.
  eapply returnsWith_bind; [apply recordCustomEvent_posts|].
  intros [] w2 (Hq2 & Hm2 & Hls2 & event & Hname & _ & Ht2). simpl in *.
  assert (Hposts : posts (trace w2) = posts (trace w) ++
            match truthy (apiEndpoint config) with
            | Some endpoint => [(endpoint +:+ "/events", EventBody event)]
            | None => []
            end).
  { rewrite Ht2. rewrite !posts_app. simpl. rewrite Ht.
    destruct (truthy (apiEndpoint config)); simpl; by rewrite ?app_nil_r. }
  assert (Hs2 : storageSound w2) by (by apply (storageSound_same w1)).
  unfold when, isDevelopment, emit, modify, mbind, M_bind.
  destruct (environment config); simpl.
  all: split; [by eapply storageSound_same|]; split; [congruence|]; split; [congruence|].
  all: exists event; split; [done|]; simpl; rewrite ?posts_app; simpl.
  all: by rewrite ?app_nil_r.
Qed.

Lemma reportError_enqueues (error : JsError) (context : option Props) (w : World) :
  storageSound w → unignored (error, context) →
  returnsWith (reportError error context w)
    (λ _ w', storageSound w' ∧ metrics w' = metrics w ∧
             errorQueue w' = enqueue (errorQueue w) (manualEntry (error, context)) ∧
             ∃ event, event_name event = "error_occurred" ∧
               posts (trace w') = posts (trace w) ++
                 match truthy (apiEndpoint config) with
                 | Some endpoint => [(endpoint +:+ "/events", EventBody event)]
                 | None => []
                 end).
Proof.
  intros Hs Hun. unfold unignored in Hun. simpl in Hun.
  unfold reportError. rewrite Hun. simpl.
  eapply returnsWith_bind; [apply formatErrorInfo_quiet|].
  intros info w1 [(Hq & Hm & Ht) Hls]. simpl.
  eapply returnsWith_weaken.
  { apply processError_enqueues. by apply (storageSound_same w). }
  intros [] w2 (Hs2 & Hm2 & Hq2 & event & Hname & Hposts). simpl.
  split; [done|]. split; [congruence|]. split.
  { rewrite Hq2, Hq. reflexivity. }
  exists event. split; [done|]. by rewrite Hposts, Ht.
Qed.

(** The POSTs that a run of reports adds: one per report, each to the
    events path of the endpoint, when there is an endpoint. *)
Lemma reportAll_enqueues (reports : list (JsError * option Props)) (w : World) :
  storageSound w → Forall unignored reports →
  returnsWith (reportAll reports w)
    (λ _ w', storageSound w' ∧ metrics w' = metrics w ∧
             errorQueue w' = fold_left enqueue (manualEntry <$> reports) (errorQueue w) ∧
             ∃ added, posts (trace w') = posts (trace w) ++ added ∧
               match truthy (apiEndpoint config) with
               | Some endpoint =>
                   length added = length reports ∧
                   Forall (λ p, p.1 = endpoint +:+ "/events") added
               | None => added = []
               end).
Proof.
  revert w. induction reports as [|[error context] reports IH]; intros w Hs Hall; simpl.
  - do 3 (split; [done|]). exists []. rewrite app_nil_r. split; [done|].
    by destruct (truthy (apiEndpoint config)).
  - apply Forall_cons in Hall as [Hun Hall].
    eapply returnsWith_bind; [by apply reportError_enqueues|].
    intros [] w1 (Hs1 & Hm1 & Hq1 & event & Hname & Hp1). simpl.
    eapply returnsWith_weaken; [by apply IH|].
    intros [] w2 (Hs2 & Hm2 & Hq2 & added & Hp2 & Hadded). simpl.
    split; [done|]. split; [congruence|]. split; [by rewrite Hq2, Hq1|].
    rewrite Hp2, Hp1, <- app_assoc.
    eexists. split; [reflexivity|].
    destruct (truthy (apiEndpoint config)) as [endpoint|]; simpl.
    + destruct Hadded as [Hlen Hto]. split; [by rewrite Hlen|].
      by apply Forall_cons.
    + done.
Qed.

End Reports.

(** The queue after a run of insertions, from empty: the last hundred. *)
Lemma drop_tail {A} (n : nat) (l : list A) : tail (drop n l) = drop (S n) l.
Proof.
  revert l. induction n as [|n IH]; intros [|x l]; simpl; try done.
Qed.

Lemma enqueue_sliceLast (l : list QueueEntry) (entry : QueueEntry) :
  enqueue (sliceLast maxQueueSize l) entry = sliceLast maxQueueSize (l ++ [entry]).
Proof.
  unfold enqueue, sliceLast, shift, maxQueueSize.
  rewrite length_drop, length_app. simpl.
  case_bool_decide as Hfull.
  - rewrite drop_tail, drop_app_le by lia. simpl.
    replace (length l + 1 - 100)%nat with (S (length l - 100)) by lia. done.
  - replace (length l - 100)%nat with 0%nat by lia.
    replace (length l + 1 - 100)%nat with 0%nat by lia. by rewrite !drop_0.
Qed.

Lemma enqueue_all (entries : list QueueEntry) :
  fold_left enqueue entries [] = sliceLast maxQueueSize entries.
Proof.
  induction entries as [|entry entries IH] using rev_ind; [done|].
  by rewrite fold_left_app, IH, <- enqueue_sliceLast.
Qed.

Lemma storageSound_fresh : storageSound freshWorld.
Proof. intros key _. done. Qed.

(** C4, as the code has it: on a page whose stored sessions the tracker
    can read ([storageSound]), starting from an empty queue, N calls of
    [reportError] one after the other, with errors that the filter lets
    through, all return, and leave a queue of length min(N, 100) that
    holds the entries of the last min(N, 100) calls in call order: what
    was dropped is the first N - 100 entries, the oldest.  Each report
    updates the stored session before it reaches the queue, which is why
    the store must be readable; it is on every page that was loaded so
    and has run this code since ([reachable_invariant]). *)
Theorem error_queue_capped_oldest_first `{Env}
    (reports : list (JsError * option Props)) (w : World) :
  storageSound w → errorQueue w = [] → Forall unignored reports →
  ∃ w' : World,
    reportAll reports w = Returns tt w' ∧
    length (errorQueue w') = (length reports `min` 100)%nat ∧
    errorQueue w' = drop (length reports - 100) (manualEntry <$> reports) ∧
    manualEntry <$> reports
      = take (length reports - 100) (manualEntry <$> reports) ++ errorQueue w'.
Proof.
  intros Hs Hempty Hall.
  destruct (returnsWith_inv _ _ (reportAll_enqueues reports w Hs Hall))
    as ([] & w' & Hrun & _ & _ & Hq & _).
  exists w'. split; [done|].
  rewrite Hempty, enqueue_all in Hq. unfold sliceLast, maxQueueSize in Hq.
  rewrite length_fmap in Hq.
  split; [|split; [done|]].
  - rewrite Hq, length_drop, length_fmap. lia.
  - by rewrite Hq, take_drop.
Qed.

Lemma error_queue_capped_oldest_first_witness :
  ∃ w' : World,
    reportAll (H := unsampledPage) (failures 101) freshWorld = Returns tt w' ∧
    length (errorQueue w') = (length (failures 101) `min` 100)%nat ∧
    errorQueue w' = drop (length (failures 101) - 100) (manualEntry <$> failures 101) ∧
    manualEntry <$> failures 101
      = take (length (failures 101) - 100) (manualEntry <$> failures 101) ++ errorQueue w'.
Proof.
  apply (error_queue_capped_oldest_first (H := unsampledPage) (failures 101) freshWorld).
  - exact storageSound_fresh.
  - reflexivity.
  - apply (bool_decide_unpack _). vm_compute. exact I.
Defined.

(** C4, where the claim as stated fails.  On a tab whose stored session
    does not parse, one call of [reportError] with an error that the
    filter lets through throws a [SyntaxError] out of the session update
    and the queue stays empty: its length is 0, not min(1, 100).  And
    sixty reports, a compaction of the queue and twenty reports more
    leave 70 entries, not min(80, 100). *)
Lemma unreadable_session_or_compaction_breaks_the_count :
  errorQueue unreadableWorld = [] ∧
  forallb (λ report, bool_decide (unignored report)) (failures 80) = true ∧
  settled (reportAll (H := unsampledPage) (failures 1) unreadableWorld) = inr syntaxError ∧
  errorQueue (worldAfter (reportAll (H := unsampledPage) (failures 1) unreadableWorld)) = [] ∧
  settled (reportsAroundCompaction (H := unsampledPage) freshWorld) = inl tt ∧
  length (errorQueue (worldAfter (reportsAroundCompaction (H := unsampledPage) freshWorld)))
    = 70%nat.
Proof. repeat split; vm_compute; reflexivity. Qed.

(** C1, as the code has it: delivery is not sampled.  With an endpoint
    configured, and whatever the sample rate is (0 included), on a page
    whose stored sessions the tracker can read, each of N captured
    reports - made one after the other, from an empty queue - issues one
    POST, to the events path of the endpoint; the local queue takes
    every captured report up to its cap, so [getErrorStats().total] is
    min(N, 100). *)
Theorem delivery_is_not_sampled `{Env} (endpoint : string)
    (reports : list (JsError * option Props)) (w : World) :
  truthy (apiEndpoint config) = Some endpoint →
  storageSound w → errorQueue w = [] → Forall unignored reports →
  ∃ (w' : World) (added : list (string * Payload)),
    reportAll reports w = Returns tt w' ∧
    posts (trace w') = posts (trace w) ++ added ∧
    length added = length reports ∧
    Forall (λ p, p.1 = endpoint +:+ "/events") added ∧
    total <$> returned (getErrorStats w') = Some (length reports `min` 100)%nat.
Proof.
  intros Hep Hs Hempty Hall.
  destruct (returnsWith_inv _ _ (reportAll_enqueues reports w Hs Hall))
    as ([] & w' & Hrun & _ & _ & Hq & added & Hposts & Hadded).
  rewrite Hep in Hadded. destruct Hadded as [Hlen Hto].
  exists w', added. do 4 (split; [done|]).
  simpl. f_equal.
  rewrite Hq, Hempty, enqueue_all. unfold sliceLast, maxQueueSize.
  rewrite length_drop, length_fmap. lia.
Qed.

Lemma delivery_is_not_sampled_witness :
  ∃ (w' : World) (added : list (string * Payload)),
    reportAll (H := unsampledPage) (failures 3) freshWorld = Returns tt w' ∧
    posts (trace w') = posts (trace freshWorld) ++ added ∧
    length added = length (failures 3) ∧
    Forall (λ p, p.1 = "https://collector.example" +:+ "/events") added ∧
    total <$> returned (getErrorStats w') = Some (length (failures 3) `min` 100)%nat.
Proof.
  apply (delivery_is_not_sampled (H := unsampledPage) "https://collector.example"
           (failures 3) freshWorld).
  - reflexivity.
  - exact storageSound_fresh.
  - reflexivity.
  - apply (bool_decide_unpack _). vm_compute. exact I.
Defined.

(** C1, where the claim as stated fails: on a page with an endpoint and a
    sample rate of 0, one captured report issues a POST to the endpoint;
    and after 101 captured reports [getErrorStats().total] is 100. *)
Lemma sample_rate_zero_still_posts :
  sampleRate (config (Env := unsampledPage)) = 0%Q ∧
  (posts (trace (worldAfter (reportAll (H := unsampledPage) (failures 1) freshWorld)))).*1
    = ["https://collector.example/events"] ∧
  total <$> returned (getErrorStats
              (worldAfter (reportAll (H := unsampledPage) (failures 101) freshWorld)))
    = Some 100%nat.
Proof. repeat split; vm_compute; reflexivity. Qed.

(** ** The fetch wrapper *)

Lemma networkErrors_app (t1 t2 : list Effect) :
  networkErrors (t1 ++ t2) = networkErrors t1 ++ networkErrors t2.
Proof. apply omap_app. Qed.

Lemma customEvents_app (name : string) (t1 t2 : list Effect) :
  customEvents name (t1 ++ t2) = customEvents name t1 ++ customEvents name t2.
Proof. apply omap_app. Qed.

Section Wrapper.

Context `{Env}.

(** What one call of [recordNetworkError] adds to the trace. *)
Lemma recordNetworkError_records (url method : string) (status : Z) (statusText : string)
    (duration : Z) (w : World) :
  returnsWith (recordNetworkError url method status statusText duration w)
    (λ _ w', ∃ record added,
       trace w' = trace w ++ added ∧
       networkErrors added = [record] ∧ (∀ name, customEvents name added = []) ∧
       net_url record = url ∧ net_method record = method ∧ net_status record = status ∧
       net_statusText record = statusText ∧ net_duration record = duration).
Proof.
  unfold recordNetworkError.
  erewrite bind_returns by reflexivity.
  eapply returnsWith_bind; [apply getSessionId_quiet|].
  intros sid w1 [(Hq & Hm & Ht) Hls]. simpl in *.
  unfold sendErrorToService, emit, modify, mbind, M_bind. simpl.
  destruct (truthy (apiEndpoint config)) as [endpoint|]; simpl.
  all: exists {| net_url := url; net_method := method; net_status := status;
                 net_statusText := statusText; net_timestamp := clock (dateReads w);
                 net_duration := duration; net_sessionId := sid |}.
  all: eexists; split; [rewrite Ht, <- ?app_assoc; reflexivity|].
  all: simpl; repeat split; done.
Qed.

(** What one call of [recordCustomEvent] adds to the trace. *)
Lemma recordCustomEvent_records (name : string) (properties : Props) (w : World) :
  returnsWith (recordCustomEvent name properties w)
    (λ _ w', ∃ event added,
       trace w' = trace w ++ added ∧
       networkErrors added = [] ∧
       (∀ other, customEvents other added = if String.eqb name other then [event] else []) ∧
       event_name event = name ∧ event_properties event = properties).
Proof.
  eapply returnsWith_weaken; [apply recordCustomEvent_posts|].
  intros [] w' (_ & _ & _ & event & Hname & Hprops & Ht). simpl.
  exists event. eexists. split; [exact Ht|].
  split; [by destruct (truthy (apiEndpoint config))|].
  split; [|done].
  intros other. rewrite <- Hname.
  destruct (truthy (apiEndpoint config)); simpl;
    by destruct (String.eqb (event_name event) other).
Qed.

Lemma tryCatch_returns {A} (body : M A) (handler : JsError → M A) (w : World)
    (post : A → World → Prop) :
  returnsWith (body w) post → returnsWith (tryCatch body handler w) post.
Proof. unfold tryCatch. by destruct (body w). Qed.

Lemma tryCatch_throws {A} (body : M A) (handler : JsError → M A) (w w1 : World) (e : JsError) :
  body w = Throws e w1 → tryCatch body handler w = handler e w1.
Proof. unfold tryCatch. by intros ->. Qed.

(** A call that the transport resolves. *)
Lemma wrappedFetch_resolved (args : FetchArgs) (response : Response) (w : World) :
  transport args = Resolves response →
  returnsWith (wrappedFetch args w)
    (λ r w', r = response ∧ ∃ added,
       trace w' = trace w ++ added ∧
       (if 5000 <? measured w
        then ∃ event, customEvents "slow_request" added = [event] ∧
               event_properties event = slowRequestProperties args (measured w) response
        else customEvents "slow_request" added = []) ∧
       (if ok response
        then networkErrors added = []
        else ∃ record, networkErrors added = [record] ∧
               net_url record = reportedUrl args ∧ net_method record = reportedMethod args ∧
               net_status record = status response ∧
               net_statusText record = statusText response ∧
               net_duration record = measured w)).
Proof.
  intros Hresolves. unfold wrappedFetch.
  erewrite bind_returns by reflexivity.
  apply tryCatch_returns.
  erewrite bind_returns; last first.
  { unfold originalFetch. rewrite Hresolves. reflexivity. }
  erewrite bind_returns by reflexivity.
  change (clock (dateReads (withDateReads S w)) - clock (dateReads w)) with (measured w).
  fold (reportedUrl args). fold (reportedMethod args).
  fold (slowRequestProperties args (measured w) response).
  set (w1 := withDateReads S (withDateReads S w)).
  assert (Ht1 : trace w1 = trace w) by reflexivity.
  eapply returnsWith_bind.
  { (* the slow request, if it is one *)
    instantiate (1 := λ _ w2, ∃ added,
       trace w2 = trace w ++ added ∧ networkErrors added = [] ∧
       (if 5000 <? measured w
        then ∃ event, customEvents "slow_request" added = [event] ∧
               event_properties event = slowRequestProperties args (measured w) response
        else customEvents "slow_request" added = [])).
    unfold when. destruct (5000 <? measured w).
    - eapply returnsWith_weaken; [apply recordCustomEvent_records|].
      intros [] w2 (event & added & Ht & Hnet & Hev & _ & Hprops). simpl.
      exists added. rewrite Ht, Ht1. do 2 (split; [done|]).
      exists event. by rewrite (Hev "slow_request").
    - simpl. exists []. by rewrite app_nil_r. }
  intros [] w2 (added1 & Ht2 & Hnet1 & Hslow1). simpl.
  eapply returnsWith_bind.
  { (* the HTTP error, if it is one *)
    instantiate (1 := λ _ w3, ∃ added,
       trace w3 = trace w2 ++ added ∧ customEvents "slow_request" added = [] ∧
       (if ok response
        then networkErrors added = []
        else ∃ record, networkErrors added = [record] ∧
               net_url record = reportedUrl args ∧ net_method record = reportedMethod args ∧
               net_status record = status response ∧
               net_statusText record = statusText response ∧
               net_duration record = measured w)).
    unfold when. destruct (ok response); simpl.
    - exists []. by rewrite app_nil_r.
    - eapply returnsWith_bind; [apply recordNetworkError_records|].
      intros [] w3 (record & added & Ht & Hnet & Hev & Hfields). simpl.
      unfold emit, modify, mret, M_ret.
      destruct (500 <=? status response); simpl.
      + exists (added ++ [Sentry (CaptureMessage
                  ("Network Error: " +:+ pretty (status response) +:+ " " +:+ statusText response)
                  "error"
                  (list_to_map [ ("url", VString (reportedUrl args));
                                 ("method", VString (reportedMethod args));
                                 ("status", VInt (status response)) ]))]).
        rewrite Ht, <- app_assoc. split; [done|].
        rewrite customEvents_app, networkErrors_app, Hev, Hnet. simpl.
        split; [done|]. by exists record.
      + exists added. split; [done|]. split; [apply Hev|]. by exists record. }
  intros [] w3 (added2 & Ht3 & Hslow2 & Hnet2). simpl.
  split; [done|]. exists (added1 ++ added2).
  rewrite Ht3, Ht2, <- app_assoc. split; [done|].
  rewrite customEvents_app, networkErrors_app, Hslow2, Hnet1, app_nil_r. simpl.
  split; [done|].
  destruct (ok response); [by rewrite Hnet2|done].
Qed.

(** A call that the transport rejects. *)
Lemma wrappedFetch_rejected (args : FetchArgs) (reason : JsError) (w : World) :
  transport args = Rejects reason →
  ∃ w' record added,
    wrappedFetch args w = Throws reason w' ∧
    trace w' = trace w ++ added ∧
    networkErrors added = [record] ∧
    customEvents "slow_request" added = [] ∧
    net_url record = reportedUrl args ∧ net_method record = reportedMethod args ∧
    net_status record = 0 ∧ net_statusText record = "Network Error" ∧
    net_duration record = measured w.
Proof.
  intros Hrejects. unfold wrappedFetch.
  erewrite bind_returns by reflexivity.
  erewrite tryCatch_throws; last first.
  { apply bind_throws. unfold originalFetch. rewrite Hrejects. reflexivity. }
  erewrite bind_returns by reflexivity.
  change (clock (dateReads (withDateReads S w)) - clock (dateReads w)) with (measured w).
  fold (reportedUrl args). fold (reportedMethod args).
  destruct (returnsWith_inv _ _
              (recordNetworkError_records (reportedUrl args) (reportedMethod args) 0
                 "Network Error" (measured w) (withDateReads S (withDateReads S w))))
    as ([] & w2 & Hrec & record & added & Ht & Hnet & Hev & Hurl & Hmethod & Hstatus & Htext & Hdur).
  erewrite bind_returns by exact Hrec.
  erewrite bind_returns by reflexivity.
  eexists _, record, _. split; [reflexivity|]. simpl.
  rewrite Ht. simpl. rewrite <- app_assoc. split; [reflexivity|].
  rewrite networkErrors_app, customEvents_app, Hnet, Hev. simpl.
  by repeat split.
Qed.

End Wrapper.

(** C6: the wrapper is transparent.  A call through [wrappedFetch]
    settles as the call of the transport under it does: it returns the
    same response or throws the same error.  When the transport resolves,
    the call builds no network error record if the response is ok and
    exactly one, with the status of the response, if it is not - so a 404
    still resolves with the 404 response, and exactly one record with
    status 404 is built.  When the transport rejects, exactly one record
    with status 0 is built and the same error is thrown. *)
Theorem wrappedFetch_transparent `{Env} (args : FetchArgs) (w : World) :
  settled (wrappedFetch args w) = settled (originalFetch args w) ∧
  (∀ response, transport args = Resolves response →
     ∃ w' added,
       wrappedFetch args w = Returns response w' ∧ trace w' = trace w ++ added ∧
       (ok response = true → networkErrors added = []) ∧
       (ok response = false →
        ∃ record, networkErrors added = [record] ∧ net_status record = status response ∧
          net_url record = reportedUrl args ∧ net_method record = reportedMethod args ∧
          net_statusText record = statusText response ∧ net_duration record = measured w) ∧
       (status response = 404 →
        ∃ record, networkErrors added = [record] ∧ net_status record = 404)) ∧
  (∀ reason, transport args = Rejects reason →
     ∃ w' added record,
       wrappedFetch args w = Throws reason w' ∧ trace w' = trace w ++ added ∧
       networkErrors added = [record] ∧ net_status record = 0 ∧
       net_url record = reportedUrl args ∧ net_method record = reportedMethod args ∧
       net_duration record = measured w).
Proof.
  assert (Hres : ∀ response, transport args = Resolves response →
     ∃ w' added,
       wrappedFetch args w = Returns response w' ∧ trace w' = trace w ++ added ∧
       (ok response = true → networkErrors added = []) ∧
       (ok response = false →
        ∃ record, networkErrors added = [record] ∧ net_status record = status response ∧
          net_url record = reportedUrl args ∧ net_method record = reportedMethod args ∧
          net_statusText record = statusText response ∧ net_duration record = measured w)).
  { intros response Hresolves.
    destruct (returnsWith_inv _ _ (wrappedFetch_resolved args response w Hresolves))
      as (r & w' & Hrun & -> & added & Ht & _ & Hnet).
    exists w', added. do 2 (split; [done|]).
    destruct (ok response); split; try done.
    intros _. destruct Hnet as (record & ? & ? & ? & ? & ? & ?). by exists record. }
  split; [|split].
  - unfold originalFetch. destruct (transport args) as [response|reason] eqn:Houtcome.
    + destruct (Hres response eq_refl) as (w' & added & -> & _). reflexivity.
    + destruct (wrappedFetch_rejected args reason w Houtcome) as (w' & ? & ? & -> & _).
      reflexivity.
  - intros response Hresolves.
    destruct (Hres response Hresolves) as (w' & added & Hrun & Ht & Hok & Hnot).
    exists w', added. do 4 (split; [done|]).
    intros H404. destruct Hnot as (record & Hone & Hstatus & _).
    { unfold ok. rewrite H404. reflexivity. }
    exists record. split; [done|]. by rewrite Hstatus.
  - intros reason Hrejects.
    destruct (wrappedFetch_rejected args reason w Hrejects)
      as (w' & record & added & Hrun & Ht & Hnet & _ & Hurl & Hmethod & Hstatus & _ & Hdur).
    by exists w', added, record.
Qed.

Lemma wrappedFetch_transparent_witness :
  ∃ w' added,
    wrappedFetch (H := slowPage (λ _, Resolves notFound)) getUsers freshWorld
      = Returns notFound w' ∧
    trace w' = trace freshWorld ++ added ∧
    (ok notFound = true → networkErrors added = []) ∧
    (ok notFound = false →
     ∃ record, networkErrors added = [record] ∧ net_status record = status notFound ∧
       net_url record = reportedUrl getUsers ∧ net_method record = reportedMethod getUsers ∧
       net_statusText record = statusText notFound ∧
       net_duration record = measured (H := slowPage (λ _, Resolves notFound)) freshWorld) ∧
    (status notFound = 404 →
     ∃ record, networkErrors added = [record] ∧ net_status record = 404).
Proof.
  apply (wrappedFetch_transparent (H := slowPage (λ _, Resolves notFound)) getUsers freshWorld).
  reflexivity.
Defined.

(** C7, as the code has it: a call through [wrappedFetch] that the
    transport resolves with a response - whatever its HTTP status - and
    whose measured duration exceeds 5000 ms builds exactly one
    [slow_request] event, with the URL, the method, the duration and the
    status of the call. *)
Theorem slow_request_when_resolved `{Env} (args : FetchArgs) (response : Response) (w : World) :
  transport args = Resolves response →
  5000 < measured w →
  ∃ w' added event,
    wrappedFetch args w = Returns response w' ∧ trace w' = trace w ++ added ∧
    customEvents "slow_request" added = [event] ∧
    event_properties event = slowRequestProperties args (measured w) response.
Proof.
  intros Hresolves Hslow.
  destruct (returnsWith_inv _ _ (wrappedFetch_resolved args response w Hresolves))
    as (r & w' & Hrun & -> & added & Ht & Hev & _).
  apply Z.ltb_lt in Hslow. rewrite Hslow in Hev.
  destruct Hev as (event & Hone & Hprops).
  by exists w', added, event.
Qed.

Lemma slow_request_when_resolved_witness :
  ∃ w' added event,
    wrappedFetch (H := slowPage (λ _, Resolves notFound)) getUsers freshWorld
      = Returns notFound w' ∧
    trace w' = trace freshWorld ++ added ∧
    customEvents "slow_request" added = [event] ∧
    event_properties event
    = slowRequestProperties getUsers
        (measured (H := slowPage (λ _, Resolves notFound)) freshWorld) notFound.
Proof.
  apply (slow_request_when_resolved (H := slowPage (λ _, Resolves notFound))
           getUsers notFound freshWorld).
  - reflexivity.
  - vm_compute. reflexivity.
Defined.

(** C7, where the claim as stated fails: a call that takes 6000 ms and
    fails at the transport throws the transport's error and builds one
    network error record with that duration, and no [slow_request]
    event. *)
Lemma slow_failure_builds_no_slow_request :
  measured (H := slowPage (λ _, Rejects failedToFetch)) freshWorld = 6000 ∧
  settled (wrappedFetch (H := slowPage (λ _, Rejects failedToFetch)) getUsers freshWorld)
    = inr failedToFetch ∧
  customEvents "slow_request"
    (trace (worldAfter
       (wrappedFetch (H := slowPage (λ _, Rejects failedToFetch)) getUsers freshWorld)))
    = [] ∧
  net_duration <$> networkErrors
    (trace (worldAfter
       (wrappedFetch (H := slowPage (λ _, Rejects failedToFetch)) getUsers freshWorld)))
    = [6000].
Proof. repeat split; vm_compute; reflexivity. Qed.

(** ** What the code leaves alone, and the states a page can reach *)

Section Frames.

Context {B : Type} (component : World → B).

Lemma keeps_ret {A} (a : A) : keeps component (mret a).
Proof. by intros w. Qed.

Lemma keeps_throw {A} (e : JsError) : keeps component (throw (A := A) e).
Proof. by intros w. Qed.

Lemma keeps_bind {A C} (m : M A) (f : A → M C) :
  keeps component m → (∀ a, keeps component (f a)) → keeps component (m ≫= f).
Proof.
  intros Hm Hf w. specialize (Hm w). unfold mbind, M_bind.
  destruct (m w) as [a w1|e w1]; simpl in *; [|done].
  by rewrite Hf.
Qed.

Lemma keeps_tryCatch {A} (body : M A) (handler : JsError → M A) :
  keeps component body → (∀ e, keeps component (handler e)) →
  keeps component (tryCatch body handler).
Proof.
  intros Hbody Hhandler w. specialize (Hbody w). unfold tryCatch.
  destruct (body w) as [a w1|e w1]; simpl in *; [done|].
  by rewrite Hhandler.
Qed.

Lemma keeps_when (c : bool) (body : M unit) :
  keeps component body → keeps component (when c body).
Proof. intros Hbody. destruct c; [done|]. apply keeps_ret. Qed.

Lemma keeps_get {A} (f : World → A) : keeps component (get f).
Proof. by intros w. Qed.

Lemma keeps_modify (f : World → World) :
  (∀ w, component (f w) = component w) → keeps component (modify f).
Proof. intros Hf w. apply Hf. Qed.

Lemma keeps_clock (f : World → World) {A} (read : World → A) :
  (∀ w, component (f w) = component w) → keeps component (λ w, Returns (read w) (f w)).
Proof. intros Hf w. apply Hf. Qed.

End Frames.

(** One step of a proof that a piece of code keeps a component: take the
    code apart along its binds and branches, down to the primitives. *)
Ltac keeps_step :=
  first
    [ apply keeps_ret
    | apply keeps_throw
    | apply keeps_get
    | apply keeps_modify; intros ?; reflexivity
    | apply keeps_clock; intros ?; reflexivity
    | apply keeps_when
    | apply keeps_bind; [|intros ?]
    | apply keeps_tryCatch; [|intros ?]
    | match goal with
      | |- keeps _ (match ?x with _ => _ end) => destruct x
      | |- keeps _ (if ?c then _ else _) => destruct c
      end ].

Ltac keeps_all := repeat keeps_step.

(** The code that neither the session tracker nor the queue is behind. *)
Ltac unfold_delivery :=
  unfold recordPerformanceMetric, recordNetworkError, recordCustomEvent,
    sendMetricToService, sendErrorToService, sendEventToService, sendMetric,
    formatErrorInfo, getSessionId, generateId, dateNow, mathRandom, emit.

Section Reach.

Context `{Env}.

Lemma wrappedFetch_keeps {B} (component : World → B) (args : FetchArgs) :
  (∀ f w, component (withDateReads f w) = component w) →
  (∀ f w, component (withRandomReads f w) = component w) →
  (∀ f w, component (withSessionStorage f w) = component w) →
  (∀ f w, component (withTrace f w) = component w) →
  keeps component (wrappedFetch args).
Proof.
  intros Hd Hr Hs Ht. unfold wrappedFetch, originalFetch. unfold_delivery. keeps_all.
  all: first [apply keeps_clock | apply keeps_modify]; intros ?; auto.
Qed.

Lemma handleMetric_keeps {B} (component : World → B) (metric : WebVitalsMetric) :
  (∀ f w, component (withDateReads f w) = component w) →
  (∀ f w, component (withRandomReads f w) = component w) →
  (∀ f w, component (withSessionStorage f w) = component w) →
  (∀ f w, component (withTrace f w) = component w) →
  (∀ f w, component (withMetrics f w) = component w) →
  keeps component (handleMetric metric).
Proof.
  intros Hd Hr Hs Ht Hm. unfold handleMetric, handlePoorPerformance. unfold_delivery. keeps_all.
  all: first [apply keeps_clock | apply keeps_modify]; intros ?; auto.
Qed.

Lemma recordPerformanceMetric_keeps {B} (component : World → B) (name : string) (value : Q) :
  (∀ f w, component (withDateReads f w) = component w) →
  (∀ f w, component (withRandomReads f w) = component w) →
  (∀ f w, component (withSessionStorage f w) = component w) →
  (∀ f w, component (withTrace f w) = component w) →
  keeps component (recordPerformanceMetric name value).
Proof.
  intros Hd Hr Hs Ht. unfold_delivery. keeps_all.
  all: first [apply keeps_clock | apply keeps_modify]; intros ?; auto.
Qed.

Lemma enqueue_bounded (q : list QueueEntry) (entry : QueueEntry) :
  (length q ≤ maxQueueSize)%nat → (length (enqueue q entry) ≤ maxQueueSize)%nat.
Proof.
  unfold enqueue, shift, maxQueueSize. intros Hq. rewrite length_app. simpl.
  case_bool_decide as Hfull.
  - destruct q; simpl in *; lia.
  - lia.
Qed.

(** The two listeners, on an error that the filter lets through. *)
Lemma handleGlobalError_enqueues (event : ErrorEvent) (w : World) :
  storageSound w →
  returnsWith (handleGlobalError event w)
    (λ _ w', storageSound w' ∧
             (errorQueue w' = errorQueue w ∨ ∃ entry, errorQueue w' = enqueue (errorQueue w) entry)).
Proof.
  intros Hs. unfold handleGlobalError.
  destruct (shouldIgnoreError _ _); simpl; [by split; [|left]|].
  eapply returnsWith_bind; [apply formatErrorInfo_quiet|].
  intros info w1 [(Hq & _ & _) Hls]. simpl.
  eapply returnsWith_weaken.
  { apply processError_enqueues. by apply (storageSound_same w). }
  intros [] w2 (Hs2 & _ & Hq2 & _). simpl. split; [done|].
  right. eexists. by rewrite Hq2, Hq.
Qed.

Lemma handleUnhandledRejection_enqueues (reason : Reason) (w : World) :
  storageSound w →
  returnsWith (handleUnhandledRejection reason w)
    (λ _ w', storageSound w' ∧
             (errorQueue w' = errorQueue w ∨ ∃ entry, errorQueue w' = enqueue (errorQueue w) entry)).
Proof.
  intros Hs. unfold handleUnhandledRejection.
  destruct (shouldIgnoreError _ _); simpl; [by split; [|left]|].
  eapply returnsWith_bind; [apply formatErrorInfo_quiet|].
  intros info w1 [(Hq & _ & _) Hls]. simpl.
  eapply returnsWith_bind.
  { apply processError_enqueues. by apply (storageSound_same w). }
  intros [] w2 (Hs2 & _ & Hq2 & _). simpl.
  unfold when, emit, modify. destruct (environment config); simpl.
  all: split; [by eapply storageSound_same|].
  all: right; eexists; by rewrite Hq2, Hq.
Qed.

Lemma returnsWith_after {A} (r : Res A) :
  returnsWith r (λ _ w', storageSound w' ∧ (length (errorQueue w') ≤ maxQueueSize)%nat) →
  storageSound (worldAfter r) ∧ (length (errorQueue (worldAfter r)) ≤ maxQueueSize)%nat.
Proof. by destruct r. Qed.

(** Every happening keeps the store readable and the queue within its
    cap. *)
Lemma happen_invariant (h : Happening) (w : World) :
  storageSound w ∧ (length (errorQueue w) ≤ maxQueueSize)%nat →
  storageSound (happen h w) ∧ (length (errorQueue (happen h w)) ≤ maxQueueSize)%nat.
Proof.
  intros [Hs Hq].
  destruct h as [error context|event|reason| |kind| | | |args|metric| |name value];
    unfold happen.
  - destruct (decide (unignored (error, context))) as [Hun|Hig].
    + apply returnsWith_after.
      eapply returnsWith_weaken; [by apply reportError_enqueues|].
      intros [] w' (Hs' & _ & Hq' & _). simpl. split; [done|].
      rewrite Hq'. by apply enqueue_bounded.
    + unfold unignored in Hig. simpl in Hig. apply not_false_is_true in Hig.
      unfold reportError. rewrite Hig. by simpl.
  - apply returnsWith_after.
    eapply returnsWith_weaken; [by apply handleGlobalError_enqueues|].
    intros [] w' [Hs' [Hq'|[entry Hq']]]; simpl; rewrite Hq'; split; try done.
    by apply enqueue_bounded.
  - apply returnsWith_after.
    eapply returnsWith_weaken; [by apply handleUnhandledRejection_enqueues|].
    intros [] w' [Hs' [Hq'|[entry Hq']]]; simpl; rewrite Hq'; split; try done.
    by apply enqueue_bounded.
  - apply returnsWith_after.
    eapply returnsWith_weaken; [by apply getUserSession_sound|].
    intros session w' [(Hq' & _) Hs']. simpl. by rewrite Hq'.
  - apply returnsWith_after.
    eapply returnsWith_weaken; [by apply updateSessionStats_sound|].
    intros [] w' [(Hq' & _) Hs']. simpl. by rewrite Hq'.
  - apply returnsWith_after.
    eapply returnsWith_weaken; [by apply cleanupExpiredSessions_sound|].
    intros [] w' [Hs' (Hq' & _)]. simpl. by rewrite Hq'.
  - simpl. split; [done|]. unfold sliceLast, maxQueueSize in *.
    case_bool_decide; [|done]. rewrite length_drop. lia.
  - simpl. split; [done|]. unfold maxQueueSize. lia.
  - split.
    + eapply storageSound_same; [|done]. by apply (wrappedFetch_keeps localStorage).
    + by rewrite (wrappedFetch_keeps errorQueue).
  - split.
    + eapply storageSound_same; [|done]. by apply (handleMetric_keeps localStorage).
    + by rewrite (handleMetric_keeps errorQueue).
  - done.
  - split.
    + eapply storageSound_same; [|done]. by apply (recordPerformanceMetric_keeps localStorage).
    + by rewrite (recordPerformanceMetric_keeps errorQueue).
Qed.

(** X23: in every state that a page can reach, the store is one the tracker
    can read and the error queue holds at most 100 entries. *)
Lemma reachable_invariant (w : World) :
  reachable w → storageSound w ∧ (length (errorQueue w) ≤ maxQueueSize)%nat.
Proof.
  induction 1 as [w (Hs & Hq & _)|h w _ IH].
  - split; [done|]. rewrite Hq. unfold maxQueueSize. simpl. lia.
  - by apply happen_invariant.
Qed.

End Reach.

(** ** The types of the queued entries *)

Lemma textTyped_enqueue (q : list QueueEntry) (entry : QueueEntry) :
  Forall textTyped q → textTyped entry → Forall textTyped (enqueue q entry).
Proof.
  intros Hq He. unfold enqueue, shift. apply Forall_app. split; [|by apply Forall_singleton].
  case_bool_decide; [|done].
  destruct q as [|first rest]; [done|]. by apply Forall_cons in Hq as [_ Hrest].
Qed.

Lemma after_returnsWith {A} (r : Res A) (P : World → Prop) :
  returnsWith r (λ _ w', P w') → P (worldAfter r).
Proof. by destruct r. Qed.

Section QueueTypes.

Context `{Env}.

Lemma processError_textTyped (error : JsError) (context : Props) (info : ErrorInfo)
    (text : string) (w : World) :
  storageSound w → context !! "type" = Some (VString text) →
  Forall textTyped (errorQueue w) →
  returnsWith (processError error context info w) (λ _ w', Forall textTyped (errorQueue w')).
Proof.
  intros Hs Htype Hq.
  eapply returnsWith_weaken; [by apply processError_enqueues|].
  intros [] w' (_ & _ & Hq' & _). simpl. rewrite Hq'.
  apply textTyped_enqueue; [done|]. unfold textTyped. simpl. by rewrite Htype.
Qed.

(** Every happening leaves the queue with entries of a text type: the
    three callers of [processError] each give it a context whose type is
    a text literal, and nothing else adds to the queue. *)
Lemma happen_textTyped (h : Happening) (w : World) :
  storageSound w → Forall textTyped (errorQueue w) →
  Forall textTyped (errorQueue (happen h w)).
Proof.
  intros Hs Hq.
  destruct h as [error context|event|reason| |kind| | | |args|metric| |name value];
    unfold happen.
  - unfold reportError. destruct (shouldIgnoreError _ _); simpl; [done|].
    apply after_returnsWith.
    eapply returnsWith_bind; [apply formatErrorInfo_quiet|].
    intros info w1 [(Hq1 & _ & _) Hls]. simpl.
    eapply (processError_textTyped _ _ _ "manual_report").
    + by apply (storageSound_same w).
    + by rewrite lookup_insert_eq.
    + by rewrite Hq1.
  - unfold handleGlobalError. destruct (shouldIgnoreError _ _); simpl; [done|].
    apply after_returnsWith.
    eapply returnsWith_bind; [apply formatErrorInfo_quiet|].
    intros info w1 [(Hq1 & _ & _) Hls]. simpl.
    eapply (processError_textTyped _ _ _ "javascript_error").
    + by apply (storageSound_same w).
    + reflexivity.
    + by rewrite Hq1.
  - unfold handleUnhandledRejection. destruct (shouldIgnoreError _ _); simpl; [done|].
    apply after_returnsWith.
    eapply returnsWith_bind; [apply formatErrorInfo_quiet|].
    intros info w1 [(Hq1 & _ & _) Hls]. simpl.
    eapply returnsWith_bind.
    { eapply (processError_textTyped _ _ _ "unhandled_promise_rejection").
      - by apply (storageSound_same w).
      - reflexivity.
      - by rewrite Hq1. }
    intros [] w2 Hq2. unfold when, emit, modify. by destruct (environment config).
  - apply after_returnsWith.
    eapply returnsWith_weaken; [by apply getUserSession_sound|].
    intros session w' [(Hq' & _) _]. simpl. by rewrite Hq'.
  - apply after_returnsWith.
    eapply returnsWith_weaken; [by apply updateSessionStats_sound|].
    intros [] w' [(Hq' & _) _]. simpl. by rewrite Hq'.
  - apply after_returnsWith.
    eapply returnsWith_weaken; [by apply cleanupExpiredSessions_sound|].
    intros [] w' [_ (Hq' & _)]. simpl. by rewrite Hq'.
  - simpl. unfold sliceLast. case_bool_decide; [|done]. by apply Forall_drop.
  - simpl. done.
  - by rewrite (wrappedFetch_keeps errorQueue).
  - by rewrite (handleMetric_keeps errorQueue).
  - done.
  - by rewrite (recordPerformanceMetric_keeps errorQueue).
Qed.

(** In every state that a page can reach, the entries of the queue carry
    a type that is a text. *)
Lemma reachable_textTyped (w : World) :
  reachable w → Forall textTyped (errorQueue w).
Proof.
  cut (reachable w →
       (storageSound w ∧ (length (errorQueue w) ≤ maxQueueSize)%nat) ∧
       Forall textTyped (errorQueue w)).
  { intros Hall Hreach. by apply Hall. }
  induction 1 as [w (Hs & Hq & _)|h w _ [IH IHq]].
  - rewrite Hq. repeat split; [done| |constructor]. unfold maxQueueSize. simpl. lia.
  - split; [by apply happen_invariant|]. apply happen_textTyped; [apply IH|done].
Qed.

End QueueTypes.

(** * More properties *)

(** ** The session tracker, call after call *)

Lemma append_dash_nonempty (a b : string) : a +:+ "-" +:+ b ≠ "".
Proof. by destruct a. Qed.

Lemma truthy_nonempty (s : string) : s ≠ "" → truthy (Some s) = Some s.
Proof. by destruct s. Qed.

Lemma truthy_inv (o : option string) (s : string) : truthy o = Some s → o = Some s ∧ s ≠ "".
Proof. destruct o as [[|]|]; simpl; intros [= <-]; done. Qed.

Section Sessions.

Context `{Env}.

(** What the tab holds once [getSessionId] has returned. *)
Lemma getSessionId_held (w : World) :
  ∃ sid w1,
    getSessionId w = Returns sid w1 ∧
    truthy (sessionStorage w1 !! "monitoring_session_id") = Some sid ∧
    localStorage w1 = localStorage w ∧ errorQueue w1 = errorQueue w ∧
    metrics w1 = metrics w ∧ trace w1 = trace w.
Proof.
  unfold getSessionId, get, mbind, M_bind. simpl.
  destruct (truthy (sessionStorage w !! "monitoring_session_id")) as [sid|] eqn:Hheld; simpl.
  - by exists sid, w.
  - eexists _, _. split; [reflexivity|]. simpl.
    rewrite lookup_insert_eq. split; [|done].
    apply truthy_nonempty, append_dash_nonempty.
Qed.

Lemma getSessionId_reuses (w : World) (sid : string) :
  truthy (sessionStorage w !! "monitoring_session_id") = Some sid →
  getSessionId w = Returns sid w.
Proof.
  intros Hheld. unfold getSessionId, get, mbind, M_bind. simpl. by rewrite Hheld.
Qed.

(** X1: the session id is created once per tab.  Whatever the page holds,
    [getSessionId] returns a non-empty id that the tab then holds, and a
    second call returns the same id and changes nothing. *)
Theorem getSessionId_stable (w : World) :
  ∃ sid w1,
    getSessionId w = Returns sid w1 ∧ sid ≠ "" ∧
    sessionStorage w1 !! "monitoring_session_id" = Some sid ∧
    getSessionId w1 = Returns sid w1.
Proof.
  destruct (getSessionId_held w) as (sid & w1 & Hrun & Hheld & _).
  exists sid, w1. split; [done|].
  destruct (truthy_inv _ _ Hheld) as [Hstored Hne].
  do 2 (split; [done|]). by apply getSessionId_reuses.
Qed.

(** A stored session, read again. *)
Lemma getUserSession_stored (w : World) (sid : string) (s : UserSession) :
  truthy (sessionStorage w !! "monitoring_session_id") = Some sid →
  localStorage w !! ("session_" +:+ sid) = Some (SessionJson s) →
  getUserSession w
  = Returns (setLastActivity (clock (dateReads w)) s)
      (withLocalStorage
         <["session_" +:+ sid := SessionJson (setLastActivity (clock (dateReads w)) s)]>
         (withDateReads S w)).
Proof.
  intros Hsid Hstored. unfold getUserSession.
  erewrite bind_returns by (by apply getSessionId_reuses).
  erewrite bind_returns by reflexivity.
  rewrite Hstored. reflexivity.
Qed.

(** Where the session that [getUserSession] returned is kept. *)
Lemma getUserSession_kept (w w1 : World) (s : UserSession) :
  getUserSession w = Returns s w1 →
  ∃ sid, truthy (sessionStorage w1 !! "monitoring_session_id") = Some sid ∧
         localStorage w1 !! ("session_" +:+ sid) = Some (SessionJson s) ∧
         errorQueue w1 = errorQueue w ∧ metrics w1 = metrics w ∧ trace w1 = trace w.
Proof.
  unfold getUserSession.
  destruct (getSessionId_held w) as (sid & w0 & Hid & Hheld & Hls & Hq & Hm & Ht).
  erewrite bind_returns by exact Hid.
  erewrite bind_returns by reflexivity.
  destruct (localStorage w0 !! ("session_" +:+ sid)) as [[| | | |stored]|]; simpl.
  all: unfold dateNow, modify, throw, mbind, M_bind, mret, M_ret; simpl.
  all: intros [= <- <-]; exists sid; simpl.
  all: by rewrite lookup_insert_eq.
Qed.

(** X2: creating the session is idempotent.  When [getUserSession] has
    returned a session, a second call returns a session with the same
    id, start time and counters; only [lastActivity] moves, to the new
    reading of the clock. *)
Theorem getUserSession_again (w w1 : World) (s : UserSession) :
  getUserSession w = Returns s w1 →
  ∃ s' w2,
    getUserSession w1 = Returns s' w2 ∧
    sessionId s' = sessionId s ∧ userId s' = userId s ∧ startTime s' = startTime s ∧
    pageViews s' = pageViews s ∧ errors s' = errors s ∧
    lastActivity s' = clock (dateReads w1).
Proof.
  intros Hfirst.
  destruct (getUserSession_kept w w1 s Hfirst) as (sid & Hheld & Hstored & _).
  eexists _, _. split; [by apply getUserSession_stored|]. done.
Qed.

(** X3: recording a page view or an error on the tab's stored session
    (stored under its own id) adds exactly 1 to the counter of that kind,
    leaves the other counter, the id and the start time, sets
    [lastActivity] to the second reading of the clock, and writes the
    record back under the same key; no other key changes. *)
Theorem updateSessionStats_counts (kind : StatKind) (w : World) (sid : string) (s : UserSession) :
  truthy (sessionStorage w !! "monitoring_session_id") = Some sid →
  localStorage w !! ("session_" +:+ sid) = Some (SessionJson s) →
  sessionId s = sid →
  ∃ w',
    updateSessionStats kind w = Returns tt w' ∧
    localStorage w'
    = <["session_" +:+ sid := SessionJson (counted kind s (clock (S (dateReads w))))]>
        (localStorage w) ∧
    sessionStorage w' = sessionStorage w ∧ errorQueue w' = errorQueue w ∧ trace w' = trace w.
Proof.
  intros Hheld Hstored <-. unfold updateSessionStats.
  erewrite bind_returns by (by apply getUserSession_stored).
  destruct kind; simpl.
  all: eexists; split; [reflexivity|]; simpl.
  all: split; [|done].
  all: by rewrite insert_insert_eq.
Qed.

(** X4: a session that was just read survives the sweep.  When
    [getUserSession] has returned a session and the sweep then runs at a
    reading of the clock not more than 24 hours past the session's
    [lastActivity], the tab's entry is still there, unchanged. *)
Theorem touched_session_survives_sweep (w w1 : World) (s : UserSession) :
  getUserSession w = Returns s w1 →
  clock (dateReads w1) - lastActivity s ≤ maxAge →
  ∃ w2 sid,
    cleanupExpiredSessions w1 = Returns tt w2 ∧
    truthy (sessionStorage w2 !! "monitoring_session_id") = Some sid ∧
    localStorage w2 !! ("session_" +:+ sid) = Some (SessionJson s).
Proof.
  intros Hread Hage.
  destruct (getUserSession_kept w w1 s Hread) as (sid & Hheld & Hstored & _).
  destruct (cleanupExpiredSessions_run w1) as (w2 & Hrun & Hlookup & Hss & _).
  exists w2, sid. split; [done|]. rewrite Hss. split; [done|].
  rewrite Hlookup, Hstored. unfold swept. rewrite startsWith_append. simpl.
  by rewrite (proj2 (Z.ltb_ge _ _) Hage).
Qed.

End Sessions.

Lemma getUserSession_again_witness :
  ∃ s' w2,
    getUserSession (H := tickingPage) (worldAfter (getUserSession (H := tickingPage) freshWorld))
      = Returns s' w2 ∧
    sessionId s' = sessionId firstSession ∧ userId s' = userId firstSession ∧
    startTime s' = startTime firstSession ∧
    pageViews s' = pageViews firstSession ∧ errors s' = errors firstSession ∧
    lastActivity s'
      = clock (Env := tickingPage)
          (dateReads (worldAfter (getUserSession (H := tickingPage) freshWorld))).
Proof.
  apply (getUserSession_again (H := tickingPage) freshWorld
           (worldAfter (getUserSession (H := tickingPage) freshWorld)) firstSession).
  vm_compute. reflexivity.
Defined.

Lemma updateSessionStats_counts_witness :
  ∃ w',
    updateSessionStats (H := tickingPage) ErrorStat (visitedWorld 1700000000000) = Returns tt w' ∧
    localStorage w'
    = <["session_" +:+ "7-k3x9q0a1z" :=
          SessionJson (counted ErrorStat (visitedSession 1700000000000)
                         (clock (Env := tickingPage)
                            (S (dateReads (visitedWorld 1700000000000)))))]>
        (localStorage (visitedWorld 1700000000000)) ∧
    sessionStorage w' = sessionStorage (visitedWorld 1700000000000) ∧
    errorQueue w' = errorQueue (visitedWorld 1700000000000) ∧
    trace w' = trace (visitedWorld 1700000000000).
Proof.
  apply (updateSessionStats_counts (H := tickingPage) ErrorStat (visitedWorld 1700000000000)
           "7-k3x9q0a1z" (visitedSession 1700000000000)).
  - vm_compute. reflexivity.
  - vm_compute. reflexivity.
  - reflexivity.
Defined.

Lemma touched_session_survives_sweep_witness :
  ∃ w2 sid,
    cleanupExpiredSessions (H := tickingPage)
      (worldAfter (getUserSession (H := tickingPage) freshWorld)) = Returns tt w2 ∧
    truthy (sessionStorage w2 !! "monitoring_session_id") = Some sid ∧
    localStorage w2 !! ("session_" +:+ sid) = Some (SessionJson firstSession).
Proof.
  apply (touched_session_survives_sweep (H := tickingPage) freshWorld
           (worldAfter (getUserSession (H := tickingPage) freshWorld)) firstSession).
  - vm_compute. reflexivity.
  - vm_compute. discriminate.
Defined.

(** ** The filter, by what its patterns mean *)

Lemma startsWith_spec (s pre : string) :
  startsWith s pre = true ↔ ∃ post, s = pre +:+ post.
Proof.
  revert s. induction pre as [|a pre IH]; intros s; simpl.
  - split; [by exists s|]. by destruct s.
  - destruct s as [|b s]; simpl.
    + split; [done|]. by intros [post [=]].
    + destruct (Ascii.eqb a b) eqn:Hab.
      * apply Ascii.eqb_eq in Hab as ->. rewrite IH.
        split; intros [post Hpost]; exists post; [by rewrite Hpost|by injection Hpost].
      * split; [done|]. intros [post [= -> _]]. by rewrite Ascii.eqb_refl in Hab.
Qed.

Lemma includesText_unfold (s sub : string) :
  includesText s sub
  = startsWith s sub || match s with
                        | "" => false
                        | String _ s' => includesText s' sub
                        end.
Proof. by destruct s. Qed.

Lemma includesText_spec (s sub : string) :
  includesText s sub = true ↔ ∃ pre post, s = pre +:+ sub +:+ post.
Proof.
  split.
  - induction s as [|c s IH]; rewrite includesText_unfold, orb_true_iff;
      intros [Hhere|Hlater]; try done.
    + apply startsWith_spec in Hhere as [post Hpost]. by exists "", post.
    + apply startsWith_spec in Hhere as [post Hpost]. by exists "", post.
    + destruct (IH Hlater) as (pre & post & ->). by exists (String c pre), post.
  - intros (pre & post & ->). induction pre as [|c pre IH].
    + change ("" +:+ sub +:+ post) with (sub +:+ post).
      rewrite includesText_unfold. by rewrite startsWith_append.
    + change (String c pre +:+ sub +:+ post) with (String c (pre +:+ sub +:+ post)).
      rewrite includesText_unfold. cbv beta iota. rewrite IH. apply orb_true_r.
Qed.

Lemma test_spec (pattern : RegExp) (s : string) : test pattern s = true ↔ matches pattern s.
Proof. destruct pattern; simpl; [apply includesText_spec | apply startsWith_spec]. Qed.

Lemma existsb_test (patterns : list RegExp) (s : string) :
  existsb (λ pattern, test pattern s) patterns = true
  ↔ ∃ pattern, pattern ∈ patterns ∧ matches pattern s.
Proof.
  rewrite existsb_exists. split; intros (pattern & Hin & Hm); exists pattern.
  - split; [by apply list_elem_of_In|by apply test_spec].
  - split; [by apply list_elem_of_In|by apply test_spec].
Qed.

(** X5: what the filter decides.  An error is ignored exactly when its
    message contains one of the configured message literals, or is, as a
    whole, one of the configured error names, or when a non-empty URL
    comes with it that matches one of the URL patterns (contains
    "extensions/", or begins with "chrome://" or "moz-extension://").
    So a message is ignored wherever the literal sits in it, an error
    name only when it is the entire message, and an absent or empty URL
    never. *)
Theorem shouldIgnoreError_meaning (error : ErrorOrString) (url : option string) :
  shouldIgnoreError error url = true
  ↔ (∃ pattern, pattern ∈ ignoreMessages errorFilters ∧ matches pattern (messageOf error)) ∨
    messageOf error ∈ ignoreErrors errorFilters ∨
    (∃ u pattern, url = Some u ∧ u ≠ "" ∧
                  pattern ∈ ignoreUrls errorFilters ∧ matches pattern u).
Proof.
  unfold shouldIgnoreError. fold (messageOf error).
  destruct (existsb (λ pattern, test pattern (messageOf error)) (ignoreMessages errorFilters))
    eqn:Hmsg.
  { split; [|done]. intros _. left. by apply existsb_test. }
  destruct (existsb (String.eqb (messageOf error)) (ignoreErrors errorFilters)) eqn:Hname.
  { split; [|done]. intros _. right; left.
    apply existsb_exists in Hname as (name & Hin & Heq).
    apply String.eqb_eq in Heq as ->. by apply list_elem_of_In. }
  assert (Hno_msg : ¬ ∃ pattern, pattern ∈ ignoreMessages errorFilters
                                  ∧ matches pattern (messageOf error)).
  { intros Hex. apply existsb_test in Hex. congruence. }
  assert (Hno_name : messageOf error ∉ ignoreErrors errorFilters).
  { intros Hin. apply list_elem_of_In in Hin.
    assert (existsb (String.eqb (messageOf error)) (ignoreErrors errorFilters) = true);
      [|congruence].
    apply existsb_exists. exists (messageOf error). split; [done|apply String.eqb_refl]. }
  destruct (truthy url) as [u|] eqn:Hurl.
  - apply truthy_inv in Hurl as [-> Hne].
    destruct (existsb (λ pattern, test pattern u) (ignoreUrls errorFilters)) eqn:Hmatch.
    + split; [|done]. intros _. right; right.
      apply existsb_test in Hmatch as (pattern & Hin & Hm). by exists u, pattern.
    + split; [done|]. intros [?|[?|(u' & pattern & [= <-] & _ & Hin & Hm)]]; [done..|].
      assert (existsb (λ pattern, test pattern u) (ignoreUrls errorFilters) = true);
        [|congruence].
      apply existsb_test. by exists pattern.
  - split; [done|]. intros [?|[?|(u & pattern & -> & Hne & _)]]; [done..|].
    by rewrite truthy_nonempty in Hurl.
Qed.

(** ** The rating, as the value grows *)

Lemma classify_monotone (v1 v2 g n : Q) :
  (v1 <= v2)%Q →
  (ratingRank (if Qle_bool v1 g then Good
               else if Qle_bool v1 n then NeedsImprovement else Poor)
   ≤ ratingRank (if Qle_bool v2 g then Good
                 else if Qle_bool v2 n then NeedsImprovement else Poor))%nat.
Proof.
  intros Hle.
  assert (Hdown : ∀ bound, Qle_bool v2 bound = true → Qle_bool v1 bound = true).
  { intros bound Hb. apply Qle_bool_iff. apply Qle_bool_iff in Hb.
    by apply (Qle_trans _ v2). }
  destruct (Qle_bool v2 g) eqn:H2g.
  { by rewrite (Hdown g H2g). }
  destruct (Qle_bool v2 n) eqn:H2n.
  { rewrite (Hdown n H2n). destruct (Qle_bool v1 g); simpl; lia. }
  destruct (Qle_bool v1 g); [simpl; lia|]. destruct (Qle_bool v1 n); simpl; lia.
Qed.

(** X6: a larger value never rates better.  For each metric name, if
    [v1 <= v2] then the rating of [v2] is the rating of [v1] or a worse
    one. *)
Theorem getRating_monotone (n : VitalName) (v1 v2 : Q) :
  (v1 <= v2)%Q → (ratingRank (getRating n v1) ≤ ratingRank (getRating n v2))%nat.
Proof.
  intros Hle. unfold getRating.
  destruct (property performanceThresholds (nameString n)) as [threshold|]; [|done].
  by apply classify_monotone.
Qed.

Lemma getRating_monotone_witness :
  (ratingRank (getRating CLS 0.1) ≤ ratingRank (getRating CLS 0.3))%nat.
Proof. apply (getRating_monotone CLS 0.1 0.3). vm_compute. discriminate. Defined.

(** ** The summary and the names reported *)

Lemma summaryStep_lookup (summary : gmap string SummaryEntry) (m : WebVitalsMetric) (key : string) :
  summaryStep summary m !! key = summary !! key ∨
  (key = nameString (name m) ∧ summaryStep summary m !! key = Some (entryOf m)).
Proof.
  unfold summaryStep. fold (entryOf m).
  destruct (decide (key = nameString (name m))) as [->|Hne].
  - destruct (summary !! nameString (name m)) as [kept|] eqn:Hkept.
    + destruct (negb _); [right|left]; [|by rewrite Hkept].
      by rewrite lookup_insert_eq.
    + right. by rewrite lookup_insert_eq.
  - left. destruct (summary !! nameString (name m)); [destruct (negb _)|]; try done.
    all: by rewrite lookup_insert_ne.
Qed.

Lemma summaryStep_own (summary : gmap string SummaryEntry) (m : WebVitalsMetric) :
  is_Some (summaryStep summary m !! nameString (name m)).
Proof.
  unfold summaryStep.
  destruct (summary !! nameString (name m)) as [kept|] eqn:Hkept.
  - destruct (negb _); [by rewrite lookup_insert_eq|by rewrite Hkept].
  - by rewrite lookup_insert_eq.
Qed.

(** X7: the summary has an entry for exactly the names that were
    reported, and each entry is the value and rating of one of the
    reports of that name. *)
Theorem getMetricsSummary_covers (ms : list WebVitalsMetric) (key : string) :
  (is_Some (getMetricsSummary ms !! key) ↔ ∃ m, m ∈ ms ∧ nameString (name m) = key) ∧
  (∀ kept, getMetricsSummary ms !! key = Some kept →
           ∃ m, m ∈ ms ∧ nameString (name m) = key ∧ kept = entryOf m).
Proof.
  split; [|intros kept; apply summary_domain].
  split.
  - intros [kept Hkept]. destruct (summary_domain ms key kept Hkept) as (m & ? & ? & _).
    by exists m.
  - intros (m & Hin & <-). unfold getMetricsSummary.
    induction ms as [|m' ms IH] using rev_ind; [by apply elem_of_nil in Hin|].
    rewrite fold_left_app. simpl.
    apply elem_of_app in Hin as [Hin|Hin].
    + destruct (summaryStep_lookup (fold_left summaryStep ms ∅) m' (nameString (name m)))
        as [Hsame|[_ Hnew]]; [|by rewrite Hnew].
      rewrite Hsame. by apply IH.
    + apply list_elem_of_singleton in Hin as ->. apply summaryStep_own.
Qed.

(** ** The statistics of the queue *)




Lemma getMetricsSummary_last_received_witness :
  getMetricsSummary ([earlyLCP] ++ [lateLCP]) !! nameString (name lateLCP)
    = Some (entryOf lateLCP) ∧
  ∀ key, key ≠ nameString (name lateLCP) →
         getMetricsSummary ([earlyLCP] ++ [lateLCP]) !! key = getMetricsSummary [earlyLCP] !! key.
Proof.
  apply (getMetricsSummary_last_received [earlyLCP] lateLCP).
  intros a b Ha Hb.
  apply elem_of_cons in Ha as [->|Ha]; [|apply list_elem_of_singleton in Ha as ->].
  all: apply elem_of_cons in Hb as [->|Hb]; [|apply list_elem_of_singleton in Hb as ->].
  all: vm_compute; reflexivity.
Defined.

(** ** The queue under insertion, compaction and clearing *)

Lemma suffix_enqueue (q history : list QueueEntry) (entry : QueueEntry) :
  q `suffix_of` history → enqueue q entry `suffix_of` history ++ [entry].
Proof.
  intros [older ->]. unfold enqueue, shift.
  case_bool_decide.
  - destruct q as [|oldest q]; simpl.
    + exists older. by rewrite app_nil_r.
    + exists (older ++ [oldest]). by rewrite <- !app_assoc.
  - exists older. by rewrite <- app_assoc.
Qed.

Lemma suffix_sliceLast {A} (n : nat) (l : list A) : sliceLast n l `suffix_of` l.
Proof. exists (take (length l - n) l). unfold sliceLast. by rewrite take_drop. Qed.

Lemma runQueueOp_returns (op : QueueOp) (w : World) :
  runQueueOp op w
  = Returns tt (withErrorQueue
      (λ q, match op with
            | Push error context => enqueue q {| error := error; context := context |}
            | Compact => if bool_decide (50 < length q)%nat then sliceLast 50 q else q
            | Clear => []
            end) w).
Proof. destruct op; [apply addToErrorQueue_enqueue|done..]. Qed.

Lemma runQueueOps_history (ops : list QueueOp) (w : World) (history : list QueueEntry) :
  errorQueue w `suffix_of` history →
  (length (errorQueue w) ≤ maxQueueSize)%nat →
  ∃ w',
    runQueueOps ops w = Returns tt w' ∧
    errorQueue w' `suffix_of` history ++ pushed ops ∧
    (length (errorQueue w') ≤ maxQueueSize)%nat ∧
    localStorage w' = localStorage w ∧ sessionStorage w' = sessionStorage w ∧
    metrics w' = metrics w ∧ trace w' = trace w.
Proof.
  revert w history. induction ops as [|op ops IH]; intros w history Hsuffix Hcap.
  - exists w. unfold pushed. simpl. by rewrite app_nil_r.
  - cbn [runQueueOps]. erewrite bind_returns by apply runQueueOp_returns.
    set (w1 := withErrorQueue _ w).
    assert (Hstep : errorQueue w1 `suffix_of`
                      history ++ pushed [op] ∧ (length (errorQueue w1) ≤ maxQueueSize)%nat).
    { subst w1. simpl. destruct op as [error context| |]; unfold pushed; simpl.
      - split; [by apply suffix_enqueue|by apply enqueue_bounded].
      - rewrite app_nil_r. case_bool_decide; [|done]. split.
        + etrans; [apply suffix_sliceLast|done].
        + unfold sliceLast, maxQueueSize. rewrite length_drop. lia.
      - rewrite app_nil_r. split; [apply suffix_nil|unfold maxQueueSize; simpl; lia]. }
    destruct Hstep as [Hsuffix1 Hcap1].
    destruct (IH w1 (history ++ pushed [op]) Hsuffix1 Hcap1)
      as (w' & Hrun & Hsuffix' & Hcap' & Hrest).
    exists w'. split; [done|]. split; [|done].
    assert (Hp : pushed (op :: ops) = pushed [op] ++ pushed ops)
      by (unfold pushed; by destruct op).
    by rewrite Hp, (assoc_L (++)).
Qed.

(** X9: the queue is always a tail of what was captured.  Whatever
    sequence of insertions, compactions and clearings runs on an empty
    queue, the queue afterwards is a contiguous suffix of the entries
    inserted, in insertion order - no entry is reordered, duplicated or
    dropped from the middle - and holds at most 100 entries; nothing
    else of the page changes. *)
Theorem queue_is_suffix_of_captures (ops : list QueueOp) (w : World) :
  errorQueue w = [] →
  ∃ w',
    runQueueOps ops w = Returns tt w' ∧
    errorQueue w' `suffix_of` pushed ops ∧
    (length (errorQueue w') ≤ maxQueueSize)%nat ∧
    localStorage w' = localStorage w ∧ sessionStorage w' = sessionStorage w ∧
    metrics w' = metrics w ∧ trace w' = trace w.
Proof.
  intros Hempty.
  apply (runQueueOps_history ops w []); rewrite Hempty; [apply suffix_nil|].
  unfold maxQueueSize. simpl. lia.
Qed.

Lemma queue_is_suffix_of_captures_witness :
  ∃ w',
    runQueueOps [Push (newError "first") None; Compact; Push (newError "second") None] freshWorld
      = Returns tt w' ∧
    errorQueue w' `suffix_of`
      pushed [Push (newError "first") None; Compact; Push (newError "second") None] ∧
    (length (errorQueue w') ≤ maxQueueSize)%nat ∧
    localStorage w' = localStorage freshWorld ∧ sessionStorage w' = sessionStorage freshWorld ∧
    metrics w' = metrics freshWorld ∧ trace w' = trace freshWorld.
Proof.
  apply (queue_is_suffix_of_captures
           [Push (newError "first") None; Compact; Push (newError "second") None] freshWorld).
  reflexivity.
Defined.

(** X10: a manual report is queued under the type "manual_report".  On
    a page whose stored sessions the tracker can read, for an error that
    the filter lets through, [reportError] returns and the newest entry
    of the queue holds that error with a context whose [type] is
    "manual_report" - whatever type the caller's context gave - and whose
    other keys are the caller's. *)
Theorem reportError_tags_entry `{Env} (error : JsError) (context : option Props) (w : World) :
  storageSound w → unignored (error, context) →
  ∃ w' tagged,
    reportError error context w = Returns tt w' ∧
    last (errorQueue w') = Some {| error := error; context := Some tagged |} ∧
    tagged !! "type" = Some (VString "manual_report") ∧
    ∀ key, key ≠ "type" → tagged !! key = default ∅ context !! key.
Proof.
  intros Hs Hun.
  destruct (returnsWith_inv _ _ (reportError_enqueues error context w Hs Hun))
    as ([] & w' & Hrun & _ & _ & Hq & _).
  exists w', (<["type" := VString "manual_report"]> (default ∅ context)).
  split; [done|]. split.
  - rewrite Hq. unfold enqueue. by rewrite last_snoc.
  - split; [apply lookup_insert_eq|]. intros key Hne. by rewrite lookup_insert_ne.
Qed.

Lemma reportError_tags_entry_witness :
  ∃ w' tagged,
    reportError (H := tickingPage) (newError "Test error")
      (Some {[ "type" := VString "test" ]}) freshWorld = Returns tt w' ∧
    last (errorQueue w')
      = Some {| error := newError "Test error"; context := Some tagged |} ∧
    tagged !! "type" = Some (VString "manual_report") ∧
    ∀ key, key ≠ "type" →
           tagged !! key = default ∅ (Some ({[ "type" := VString "test" ]} : Props)) !! key.
Proof.
  apply (reportError_tags_entry (H := tickingPage) (newError "Test error")
           (Some {[ "type" := VString "test" ]}) freshWorld).
  - exact storageSound_fresh.
  - vm_compute. reflexivity.
Defined.

Lemma loaded_fresh : loaded freshWorld.
Proof. split; [exact storageSound_fresh|done]. Qed.

Lemma reachable_invariant_witness :
  storageSound (happen (H := tickingPage) (ManualReport (newError "boom") None) freshWorld) ∧
  (length (errorQueue (happen (H := tickingPage) (ManualReport (newError "boom") None) freshWorld))
   ≤ maxQueueSize)%nat.
Proof.
  apply (reachable_invariant (H := tickingPage)
           (happen (H := tickingPage) (ManualReport (newError "boom") None) freshWorld)).
  apply reachable_next, reachable_loaded, loaded_fresh.
Defined.

(** ** The fetch wrapper: what it adds and what it leaves *)

Lemma sentryCalls_app (t1 t2 : list Effect) :
  sentryCalls (t1 ++ t2) = sentryCalls t1 ++ sentryCalls t2.
Proof. apply omap_app. Qed.

Section Network.

Context `{Env}.

(** The exact two effects of a network error record. *)
Lemma recordNetworkError_shape (url method : string) (status : Z) (statusText : string)
    (duration : Z) (w : World) :
  returnsWith (recordNetworkError url method status statusText duration w)
    (λ _ w', ∃ record,
       trace w' = trace w ++ Recorded (NetworkErrorBody record) ::
         match truthy (apiEndpoint config) with
         | Some endpoint => [FetchPost (endpoint +:+ "/errors") (NetworkErrorBody record)]
         | None => []
         end).
Proof.
  unfold recordNetworkError.
  erewrite bind_returns by reflexivity.
  eapply returnsWith_bind; [apply getSessionId_quiet|].
  intros sid w1 [(Hq & Hm & Ht) Hls]. simpl in *.
  unfold sendErrorToService, emit, modify, mbind, M_bind. simpl.
  destruct (truthy (apiEndpoint config)) as [endpoint|]; simpl.
  all: eexists; rewrite Ht, <- ?app_assoc; reflexivity.
Qed.

(** X11: a fast, successful call leaves no mark.  When the transport
    resolves with an ok response (status 200-299) within 5000 ms, the
    wrapper returns that response having read the clock twice and done
    nothing else: no record, no POST, no SDK call, no change to storage,
    queue or metrics. *)
Theorem wrappedFetch_fast_ok_is_silent (args : FetchArgs) (response : Response) (w : World) :
  transport args = Resolves response →
  ok response = true →
  measured w ≤ 5000 →
  wrappedFetch args w = Returns response (withDateReads S (withDateReads S w)).
Proof.
  intros Hresolves Hok Hfast. unfold wrappedFetch.
  erewrite bind_returns by reflexivity.
  unfold tryCatch.
  erewrite bind_returns; last first.
  { unfold originalFetch. rewrite Hresolves. reflexivity. }
  erewrite bind_returns by reflexivity.
  change (clock (dateReads (withDateReads S w)) - clock (dateReads w)) with (measured w).
  rewrite (proj2 (Z.ltb_ge _ _) Hfast), Hok. reflexivity.
Qed.

(** X12: only server errors are escalated.  When the transport resolves,
    the wrapper calls the error-tracking SDK exactly once - with an
    error-level message naming status and status text - if the status is
    500 or more, and not at all otherwise: a 4xx response is recorded as
    a network error but never escalated. *)
Theorem wrappedFetch_escalates_5xx_only (args : FetchArgs) (response : Response) (w : World) :
  transport args = Resolves response →
  ∃ w' added,
    wrappedFetch args w = Returns response w' ∧
    trace w' = trace w ++ added ∧
    sentryCalls added
    = if 500 <=? status response
      then [CaptureMessage
              ("Network Error: " +:+ pretty (status response) +:+ " " +:+ statusText response)
              "error"
              (list_to_map [ ("url", VString (reportedUrl args));
                             ("method", VString (reportedMethod args));
                             ("status", VInt (status response)) ])]
      else [].
Proof.
  intros Hresolves.
  cut (returnsWith (wrappedFetch args w) (λ r w', r = response ∧ ∃ added,
         trace w' = trace w ++ added ∧
         sentryCalls added
         = if 500 <=? status response
           then [CaptureMessage
                   ("Network Error: " +:+ pretty (status response) +:+ " "
                    +:+ statusText response)
                   "error"
                   (list_to_map [ ("url", VString (reportedUrl args));
                                  ("method", VString (reportedMethod args));
                                  ("status", VInt (status response)) ])]
           else [])).
  { intros Hrun. destruct (returnsWith_inv _ _ Hrun) as (r & w' & -> & -> & added & ? & ?).
    by exists w', added. }
  unfold wrappedFetch.
  erewrite bind_returns by reflexivity.
  apply tryCatch_returns.
  erewrite bind_returns; last first.
  { unfold originalFetch. rewrite Hresolves. reflexivity. }
  erewrite bind_returns by reflexivity.
  fold (reportedUrl args). fold (reportedMethod args).
  set (w1 := withDateReads S (withDateReads S w)).
  assert (Ht1 : trace w1 = trace w) by reflexivity.
  eapply returnsWith_bind.
  { instantiate (1 := λ _ w2, ∃ added, trace w2 = trace w ++ added ∧ sentryCalls added = []).
    unfold when. destruct (5000 <? _).
    - eapply returnsWith_weaken; [apply recordCustomEvent_posts|].
      intros [] w2 (_ & _ & _ & event & _ & _ & Ht). simpl.
      eexists. rewrite Ht, Ht1. split; [reflexivity|].
      by destruct (truthy (apiEndpoint config)).
    - simpl. exists []. by rewrite app_nil_r. }
  intros [] w2 (added1 & Ht2 & Hs1). simpl.
  unfold ok. destruct (500 <=? status response) eqn:H500.
  - assert (Hnot : (200 <=? status response) && (status response <=? 299) = false).
    { apply Z.leb_le in H500. apply andb_false_iff. right. apply Z.leb_gt. lia. }
    rewrite Hnot. simpl.
    eapply returnsWith_bind.
    { eapply returnsWith_bind; [apply recordNetworkError_shape|].
      intros [] w3 (record & Ht3). simpl. unfold emit, modify. simpl.
      instantiate (1 := λ _ w4, ∃ added, trace w4 = trace w2 ++ added ∧
        sentryCalls added = [CaptureMessage
                   ("Network Error: " +:+ pretty (status response) +:+ " "
                    +:+ statusText response)
                   "error"
                   (list_to_map [ ("url", VString (reportedUrl args));
                                  ("method", VString (reportedMethod args));
                                  ("status", VInt (status response)) ])]).
      simpl. eexists. rewrite Ht3, <- app_assoc. split; [reflexivity|].
      rewrite sentryCalls_app. by destruct (truthy (apiEndpoint config)). }
    intros [] w4 (added2 & Ht4 & Hs2). simpl. split; [done|].
    exists (added1 ++ added2). rewrite Ht4, Ht2, <- app_assoc. split; [done|].
    by rewrite sentryCalls_app, Hs1, Hs2.
  - destruct ((200 <=? status response) && (status response <=? 299)); simpl.
    + split; [done|]. exists added1. by rewrite Ht2.
    + eapply returnsWith_bind.
      { eapply returnsWith_bind; [apply recordNetworkError_shape|].
        intros [] w3 (record & Ht3). simpl.
        instantiate (1 := λ _ w4, ∃ added, trace w4 = trace w2 ++ added ∧ sentryCalls added = []).
        simpl. eexists. split; [exact Ht3|].
        by destruct (truthy (apiEndpoint config)). }
      intros [] w4 (added2 & Ht4 & Hs2). simpl. split; [done|].
      exists (added1 ++ added2). rewrite Ht4, Ht2, <- app_assoc. split; [done|].
      by rewrite sentryCalls_app, Hs1, Hs2.
Qed.

(** X13: the fetch wrapper never touches what the page keeps.  Whether a
    call returns or throws, [localStorage], the error queue and the
    collected metrics are as before. *)
Theorem wrappedFetch_touches_no_state (args : FetchArgs) (w : World) :
  localStorage (worldAfter (wrappedFetch args w)) = localStorage w ∧
  errorQueue (worldAfter (wrappedFetch args w)) = errorQueue w ∧
  metrics (worldAfter (wrappedFetch args w)) = metrics w.
Proof.
  split; [|split].
  - by apply (wrappedFetch_keeps localStorage).
  - by apply (wrappedFetch_keeps errorQueue).
  - by apply (wrappedFetch_keeps metrics).
Qed.

End Network.

Lemma wrappedFetch_fast_ok_is_silent_witness :
  wrappedFetch (H := tickingPage) getUsers freshWorld
  = Returns {| status := 200; statusText := "OK" |} (withDateReads S (withDateReads S freshWorld)).
Proof.
  apply (wrappedFetch_fast_ok_is_silent (H := tickingPage) getUsers
           {| status := 200; statusText := "OK" |} freshWorld).
  - reflexivity.
  - reflexivity.
  - vm_compute. discriminate.
Defined.

Lemma wrappedFetch_escalates_5xx_only_witness :
  ∃ w' added,
    wrappedFetch (H := slowPage (λ _, Resolves notFound)) getUsers freshWorld
      = Returns notFound w' ∧
    trace w' = trace freshWorld ++ added ∧
    sentryCalls added
    = if 500 <=? status notFound
      then [CaptureMessage
              ("Network Error: " +:+ pretty (status notFound) +:+ " " +:+ statusText notFound)
              "error"
              (list_to_map [ ("url", VString (reportedUrl getUsers));
                             ("method", VString (reportedMethod getUsers));
                             ("status", VInt (status notFound)) ])]
      else [].
Proof.
  apply (wrappedFetch_escalates_5xx_only (H := slowPage (λ _, Resolves notFound))
           getUsers notFound freshWorld).
  reflexivity.
Defined.

(** ** The XHR wrapper *)

Section XhrWrapper.

Context `{Env}.

Lemma recordNetworkError_keeps {B} (component : World → B) (url method : string)
    (status : Z) (statusText : string) (duration : Z) :
  (∀ f w, component (withDateReads f w) = component w) →
  (∀ f w, component (withRandomReads f w) = component w) →
  (∀ f w, component (withSessionStorage f w) = component w) →
  (∀ f w, component (withTrace f w) = component w) →
  keeps component (recordNetworkError url method status statusText duration).
Proof.
  intros Hd Hr Hs Ht. unfold_delivery. keeps_all.
  all: first [apply keeps_clock | apply keeps_modify]; intros ?; auto.
Qed.

(** One listener, on a request that [open] and [send] have marked. *)
Lemma loadendListener_run (xhr : Xhr) (data : MonitoringData) (w : World) :
  _monitoringData xhr = Some data →
  returnsWith (loadendListener xhr w)
    (λ _ w', localStorage w' = localStorage w ∧ errorQueue w' = errorQueue w ∧
             metrics w' = metrics w ∧
             ∃ added, trace w' = trace w ++ added ∧
               if 400 <=? xhr_status xhr
               then ∃ record, networkErrors added = [record] ∧
                      net_url record = md_url data ∧ net_method record = md_method data ∧
                      net_status record = xhr_status xhr ∧
                      net_statusText record = xhr_statusText xhr ∧
                      net_duration record = clock (dateReads w) - md_startTime data
               else added = []).
Proof.
  intros Hdata. unfold loadendListener. rewrite Hdata.
  erewrite bind_returns by reflexivity.
  unfold when. destruct (400 <=? xhr_status xhr).
  - pose proof (recordNetworkError_keeps localStorage (md_url data) (md_method data)
                  (xhr_status xhr) (xhr_statusText xhr)
                  (clock (dateReads w) - md_startTime data)) as Hls.
    pose proof (recordNetworkError_keeps errorQueue (md_url data) (md_method data)
                  (xhr_status xhr) (xhr_statusText xhr)
                  (clock (dateReads w) - md_startTime data)) as Hq.
    pose proof (recordNetworkError_keeps metrics (md_url data) (md_method data)
                  (xhr_status xhr) (xhr_statusText xhr)
                  (clock (dateReads w) - md_startTime data)) as Hm.
    specialize (Hls ltac:(done) ltac:(done) ltac:(done) ltac:(done) (withDateReads S w)).
    specialize (Hq ltac:(done) ltac:(done) ltac:(done) ltac:(done) (withDateReads S w)).
    specialize (Hm ltac:(done) ltac:(done) ltac:(done) ltac:(done) (withDateReads S w)).
    pose proof (recordNetworkError_records (md_url data) (md_method data) (xhr_status xhr)
                  (xhr_statusText xhr) (clock (dateReads w) - md_startTime data)
                  (withDateReads S w)) as Hrun.
    destruct (recordNetworkError _ _ _ _ _ _) as [[] w'|]; simpl in *; [|done].
    destruct Hrun as (record & added & Ht & Hnet & _ & ? & ? & ? & ? & ?).
    do 3 (split; [done|]). exists added. split; [done|]. by exists record.
  - simpl. do 3 (split; [done|]). exists []. by rewrite app_nil_r.
Qed.

(** All the listeners of an object, one after the other. *)
Lemma xhrLoadend_run (xhr : Xhr) (data : MonitoringData) (w : World) :
  _monitoringData xhr = Some data →
  returnsWith (xhrLoadend xhr w)
    (λ _ w', localStorage w' = localStorage w ∧ errorQueue w' = errorQueue w ∧
             metrics w' = metrics w ∧
             ∃ added, trace w' = trace w ++ added ∧
               if 400 <=? xhr_status xhr
               then length (networkErrors added) = loadendListeners xhr ∧
                    Forall (λ record, net_url record = md_url data ∧
                                      net_method record = md_method data ∧
                                      net_status record = xhr_status xhr ∧
                                      net_statusText record = xhr_statusText xhr)
                      (networkErrors added)
               else added = []).
Proof.
  intros Hdata. unfold xhrLoadend.
  generalize (loadendListeners xhr) as n. intros n. revert w.
  induction n as [|n IH]; intros w; simpl.
  - do 3 (split; [done|]). exists []. rewrite app_nil_r. split; [done|].
    by destruct (400 <=? xhr_status xhr).
  - eapply returnsWith_bind; [by apply loadendListener_run|].
    intros [] w1 (Hls1 & Hq1 & Hm1 & added1 & Ht1 & Hone). simpl.
    eapply returnsWith_weaken; [apply IH|].
    intros [] w2 (Hls2 & Hq2 & Hm2 & added2 & Ht2 & Hrest). simpl.
    split; [congruence|]. split; [congruence|]. split; [congruence|].
    exists (added1 ++ added2). rewrite Ht2, Ht1, <- app_assoc. split; [done|].
    destruct (400 <=? xhr_status xhr).
    + destruct Hone as (record & Hnet & ? & ? & ? & ? & _). destruct Hrest as [Hlen Hall].
      rewrite networkErrors_app, Hnet. simpl. split; [by rewrite Hlen|].
      by apply Forall_cons.
    + by rewrite Hone, Hrest.
Qed.

(** X14: the XHR wrapper records HTTP errors only.  When [loadend] fires
    on a request whose status is below 400 - 0 included, the status of a
    request that got no response - the listeners add nothing to the trace
    and change neither storage nor queue: a transport failure leaves no
    record, and neither does a request that was merely slow. *)
Theorem xhrLoadend_silent_below_400 (xhr : Xhr) (w : World) :
  xhr_status xhr < 400 →
  ∃ w',
    xhrLoadend xhr w = Returns tt w' ∧
    trace w' = trace w ∧ localStorage w' = localStorage w ∧
    errorQueue w' = errorQueue w ∧ metrics w' = metrics w.
Proof.
  intros Hlow. apply Z.leb_gt in Hlow.
  destruct (_monitoringData xhr) as [data|] eqn:Hdata.
  - destruct (returnsWith_inv _ _ (xhrLoadend_run xhr data w Hdata))
      as ([] & w' & Hrun & Hls & Hq & Hm & added & Ht & Hnone).
    rewrite Hlow in Hnone. subst added. rewrite app_nil_r in Ht. by exists w'.
  - exists w. split; [|done]. unfold xhrLoadend, loadendListener. rewrite Hdata.
    induction (loadendListeners xhr) as [|n IH]; [done|]. simpl.
    by erewrite bind_returns by reflexivity.
Qed.

(** X15: listeners pile up on a reused object.  Each [send] adds one more
    [loadend] listener and none is ever removed, so a request that ends
    with a status of 400 or more on an object that was sent n times
    before builds n + 1 network error records, each with the method and
    URL of the current [open] and the status of the response. *)
Theorem xhrRequest_records_once_per_send (method url : string) (status : Z) (statusText : string)
    (xhr : Xhr) (w : World) :
  400 ≤ status →
  ∃ w' finished added,
    xhrRequest method url status statusText xhr w = Returns finished w' ∧
    loadendListeners finished = S (loadendListeners xhr) ∧
    trace w' = trace w ++ added ∧
    length (networkErrors added) = S (loadendListeners xhr) ∧
    Forall (λ record, net_url record = url ∧ net_method record = method ∧
                      net_status record = status ∧ net_statusText record = statusText)
      (networkErrors added).
Proof.
  intros Hhigh. apply Z.leb_le in Hhigh. unfold xhrRequest.
  erewrite bind_returns by reflexivity.
  set (finished := xhrSettle status statusText _).
  destruct (returnsWith_inv _ _
              (xhrLoadend_run finished
                 {| md_method := method; md_url := url;
                    md_startTime := clock (dateReads w) |} (withDateReads S w) eq_refl))
    as ([] & w' & Hrun & _ & _ & _ & added & Ht & Hrecords).
  erewrite bind_returns by exact Hrun.
  exists w', finished, added. split; [done|]. split; [done|]. split; [done|].
  change (xhr_status finished) with status in Hrecords. rewrite Hhigh in Hrecords.
  done.
Qed.

End XhrWrapper.

Lemma xhrLoadend_silent_below_400_witness :
  ∃ w',
    xhrLoadend (H := tickingPage)
      (xhrSettle 0 "" (sentXhr (H := tickingPage))) freshWorld = Returns tt w' ∧
    trace w' = trace freshWorld ∧ localStorage w' = localStorage freshWorld ∧
    errorQueue w' = errorQueue freshWorld ∧ metrics w' = metrics freshWorld.
Proof.
  apply (xhrLoadend_silent_below_400 (H := tickingPage)
           (xhrSettle 0 "" (sentXhr (H := tickingPage))) freshWorld).
  vm_compute. reflexivity.
Defined.

Lemma xhrRequest_records_once_per_send_witness :
  ∃ w' finished added,
    xhrRequest (H := tickingPage) "POST" "/api/orders" 503 "Service Unavailable"
      (sentXhr (H := tickingPage)) freshWorld = Returns finished w' ∧
    loadendListeners finished = S (loadendListeners (sentXhr (H := tickingPage))) ∧
    trace w' = trace freshWorld ++ added ∧
    length (networkErrors added) = S (loadendListeners (sentXhr (H := tickingPage))) ∧
    Forall (λ record, net_url record = "/api/orders" ∧ net_method record = "POST" ∧
                      net_status record = 503 ∧ net_statusText record = "Service Unavailable")
      (networkErrors added).
Proof.
  apply (xhrRequest_records_once_per_send (H := tickingPage) "POST" "/api/orders" 503
           "Service Unavailable" (sentXhr (H := tickingPage)) freshWorld).
  vm_compute. discriminate.
Defined.

(** ** The collector, report by report *)

Section Collector.

Context `{Env}.

Lemma recordCustomEvent_count (name : string) (properties : Props) (w : World) :
  returnsWith (recordCustomEvent name properties w)
    (addsEvents (λ other, if String.eqb name other then 1 else 0)%nat w).
Proof.
  eapply returnsWith_weaken; [apply recordCustomEvent_posts|].
  intros [] w' (Hq & Hm & Hls & event & Hname & _ & Ht). simpl.
  do 3 (split; [done|]). intros other.
  rewrite Ht, customEvents_app, length_app. f_equal.
  simpl. rewrite Hname.
  destruct (truthy (apiEndpoint config)); by destruct (String.eqb name other).
Qed.

Lemma sendMetric_count (metric : WebVitalsMetric) (rating : Rating) (w : World) :
  returnsWith (sendMetric metric rating w) (addsEvents (λ _, 0%nat) w).
Proof.
  unfold sendMetric. destruct (truthy (apiEndpoint config)) as [endpoint|]; simpl.
  - eapply returnsWith_bind; [apply getSessionId_quiet|].
    intros sid w1 [(Hq & Hm & Ht) Hls]. unfold emit, modify. simpl.
    do 3 (split; [done|]). intros other.
    unfold withTrace. simpl. rewrite customEvents_app, length_app, Ht. simpl. lia.
  - do 3 (split; [done|]). intros other. lia.
Qed.

(** X16: what one report does.  [handleMetric] appends the record to the
    collector's list (so the list keeps every report in the order
    received), builds exactly one [web_vital] event, and builds a
    [performance_issue] event exactly when the value rates as poor; the
    error queue and [localStorage] are not touched. *)
Theorem handleMetric_collects (metric : WebVitalsMetric) (w : World) :
  ∃ w',
    handleMetric metric w = Returns tt w' ∧
    metrics w' = metrics w ++ [metric] ∧
    errorQueue w' = errorQueue w ∧ localStorage w' = localStorage w ∧
    length (customEvents "web_vital" (trace w'))
      = S (length (customEvents "web_vital" (trace w))) ∧
    length (customEvents "performance_issue" (trace w'))
      = (length (customEvents "performance_issue" (trace w))
         + match getRating (name metric) (value metric) with Poor => 1 | _ => 0 end)%nat.
Proof.
  cut (returnsWith (handleMetric metric w)
         (λ _ w', metrics w' = metrics w ++ [metric] ∧
                  errorQueue w' = errorQueue w ∧ localStorage w' = localStorage w ∧
                  ∀ other, length (customEvents other (trace w'))
                           = (length (customEvents other (trace w))
                              + ((if String.eqb "web_vital" other then 1 else 0)
                                 + match getRating (name metric) (value metric) with
                                   | Poor => if String.eqb "performance_issue" other then 1 else 0
                                   | _ => 0
                                   end))%nat)).
  { intros Hrun. destruct (returnsWith_inv _ _ Hrun) as ([] & w' & -> & Hm & Hq & Hls & Hcount).
    exists w'. do 4 (split; [done|]).
    rewrite (Hcount "web_vital"), (Hcount "performance_issue"). simpl.
    split; destruct (getRating _ _); simpl; lia. }
  unfold handleMetric.
  erewrite bind_returns by reflexivity.
  set (w0 := withMetrics _ w).
  assert (Hm0 : metrics w0 = metrics w ++ [metric]) by reflexivity.
  assert (Hq0 : errorQueue w0 = errorQueue w) by reflexivity.
  assert (Hls0 : localStorage w0 = localStorage w) by reflexivity.
  eapply returnsWith_bind; [apply sendMetric_count|].
  intros [] w1 (Hq1 & Hm1 & Hls1 & Hc1). simpl.
  eapply returnsWith_bind; [apply recordCustomEvent_count|].
  intros [] w2 (Hq2 & Hm2 & Hls2 & Hc2). simpl.
  erewrite bind_returns by reflexivity.
  eapply (returnsWith_bind _ _ _
            (λ _ w3, errorQueue w3 = errorQueue w2 ∧ metrics w3 = metrics w2 ∧
                     localStorage w3 = localStorage w2 ∧
                     ∀ other, customEvents other (trace w3) = customEvents other (trace w2))).
  { unfold when, emit, modify. destruct isDevelopment; simpl; repeat split; try done.
    all: intros other; rewrite ?customEvents_app; simpl; by rewrite ?app_nil_r. }
  intros [] w3 H3. simpl.
  destruct H3 as (Hq3 & Hm3 & Hls3 & Hc3).
  assert (Hbase : ∀ other, length (customEvents other (trace w3))
                           = (length (customEvents other (trace w))
                              + (if String.eqb "web_vital" other then 1 else 0))%nat).
  { intros other. rewrite Hc3, Hc2, Hc1. simpl. lia. }
  unfold when. destruct (getRating (name metric) (value metric)); simpl.
  1,2: split; [congruence|]; split; [congruence|]; split; [congruence|].
  1,2: intros other; specialize (Hbase other); simpl in Hbase; lia.
  unfold handlePoorPerformance.
  erewrite bind_returns by reflexivity.
  eapply returnsWith_weaken; [apply recordCustomEvent_count|].
  intros [] w4 (Hq4 & Hm4 & Hls4 & Hc4). simpl in *.
  split; [congruence|]. split; [congruence|]. split; [congruence|].
  intros other. specialize (Hbase other). specialize (Hc4 other).
  rewrite customEvents_app, length_app in Hc4. simpl in *. lia.
Qed.

End Collector.

(** ** What the layer never emits *)

Section Emits.

Context (allowed : Effect → Prop).

Lemma emitsOnly_quiet {A} (m : M A) :
  (∀ w, trace (worldAfter (m w)) = trace w) → emitsOnly allowed m.
Proof. intros Hm w. exists []. by rewrite app_nil_r, Hm. Qed.

Lemma emitsOnly_ret {A} (a : A) : emitsOnly allowed (mret a).
Proof. by apply emitsOnly_quiet. Qed.

Lemma emitsOnly_throw {A} (e : JsError) : emitsOnly allowed (throw (A := A) e).
Proof. by apply emitsOnly_quiet. Qed.

Lemma emitsOnly_get {A} (f : World → A) : emitsOnly allowed (get f).
Proof. by apply emitsOnly_quiet. Qed.

Lemma emitsOnly_emit (e : Effect) : allowed e → emitsOnly allowed (emit e).
Proof. intros He w. exists [e]. split; [done|]. by apply Forall_singleton. Qed.

Lemma emitsOnly_bind {A B} (m : M A) (f : A → M B) :
  emitsOnly allowed m → (∀ a, emitsOnly allowed (f a)) → emitsOnly allowed (m ≫= f).
Proof.
  intros Hm Hf w. destruct (Hm w) as (added1 & Ht1 & Hall1). unfold mbind, M_bind.
  destruct (m w) as [a w1|e w1]; simpl in *; [|by exists added1].
  destruct (Hf a w1) as (added2 & Ht2 & Hall2).
  exists (added1 ++ added2). rewrite Ht2, Ht1, <- app_assoc. split; [done|].
  by apply Forall_app.
Qed.

Lemma emitsOnly_tryCatch {A} (body : M A) (handler : JsError → M A) :
  emitsOnly allowed body → (∀ e, emitsOnly allowed (handler e)) →
  emitsOnly allowed (tryCatch body handler).
Proof.
  intros Hbody Hhandler w. destruct (Hbody w) as (added1 & Ht1 & Hall1). unfold tryCatch.
  destruct (body w) as [a w1|e w1]; simpl in *; [by exists added1|].
  destruct (Hhandler e w1) as (added2 & Ht2 & Hall2).
  exists (added1 ++ added2). rewrite Ht2, Ht1, <- app_assoc. split; [done|].
  by apply Forall_app.
Qed.

Lemma emitsOnly_when (c : bool) (body : M unit) :
  emitsOnly allowed body → emitsOnly allowed (when c body).
Proof. intros Hbody. destruct c; [done|]. apply emitsOnly_ret. Qed.

Lemma emitsOnly_times (n : nat) (m : M unit) :
  emitsOnly allowed m → emitsOnly allowed (times n m).
Proof.
  intros Hm. induction n as [|n IH]; simpl; [apply emitsOnly_ret|].
  apply emitsOnly_bind; [done|by intros _].
Qed.

End Emits.

Ltac emits_step :=
  first
    [ apply emitsOnly_ret
    | apply emitsOnly_throw
    | apply emitsOnly_get
    | apply emitsOnly_emit; exact I
    | apply emitsOnly_when
    | apply emitsOnly_bind; [|intros ?]
    | apply emitsOnly_tryCatch; [|intros ?]
    | apply emitsOnly_quiet; intros ?; reflexivity
    | match goal with
      | |- emitsOnly _ (match ?x with _ => _ end) => destruct x
      | |- emitsOnly _ (if ?c then _ else _) => destruct c
      end ].

Ltac emits_all := repeat emits_step.

Lemma posts_staysLocal (added : list Effect) : Forall staysLocal added → posts added = [].
Proof.
  induction 1 as [|e added He _ IH]; [done|]. unfold posts in *. simpl.
  by destruct e.
Qed.

Section Unconfigured.

Context `{Env}.

Hypothesis no_endpoint : truthy (apiEndpoint config) = None.

Lemma getUserSession_staysLocal : emitsOnly staysLocal getUserSession.
Proof. unfold getUserSession. unfold_delivery. emits_all. Qed.

Lemma updateSessionStats_staysLocal (kind : StatKind) :
  emitsOnly staysLocal (updateSessionStats kind).
Proof.
  unfold updateSessionStats. apply emitsOnly_bind; [apply getUserSession_staysLocal|].
  intros session. unfold_delivery. emits_all.
Qed.

Lemma recordCustomEvent_staysLocal (name : string) (properties : Props) :
  emitsOnly staysLocal (recordCustomEvent name properties).
Proof. unfold_delivery. rewrite no_endpoint. emits_all. Qed.

Lemma recordNetworkError_staysLocal (url method : string) (status : Z) (statusText : string)
    (duration : Z) :
  emitsOnly staysLocal (recordNetworkError url method status statusText duration).
Proof. unfold_delivery. rewrite no_endpoint. emits_all. Qed.

Lemma processError_staysLocal (error : JsError) (context : Props) (info : ErrorInfo) :
  emitsOnly staysLocal (processError error context info).
Proof.
  unfold processError.
  apply emitsOnly_bind; [apply updateSessionStats_staysLocal|intros _].
  apply emitsOnly_bind; [unfold addToErrorQueue; emits_all|intros _].
  apply emitsOnly_bind; [emits_all|intros user].
  apply emitsOnly_bind; [emits_all|intros _].
  apply emitsOnly_bind; [apply recordCustomEvent_staysLocal|intros _].
  emits_all.
Qed.

Lemma happen_staysLocal (h : Happening) :
  ∀ w, ∃ added, trace (happen h w) = trace w ++ added ∧ Forall staysLocal added.
Proof.
  destruct h as [error context|event|reason| |kind| | | |args|metric| |name value];
    unfold happen.
  - change (emitsOnly staysLocal (reportError error context)). unfold reportError.
    destruct (negb _); [|emits_all].
    apply emitsOnly_bind; [unfold_delivery; emits_all|intros info].
    apply processError_staysLocal.
  - change (emitsOnly staysLocal (handleGlobalError event)). unfold handleGlobalError.
    destruct (shouldIgnoreError _ _); [emits_all|].
    apply emitsOnly_bind; [unfold_delivery; emits_all|intros info].
    apply processError_staysLocal.
  - change (emitsOnly staysLocal (handleUnhandledRejection reason)).
    unfold handleUnhandledRejection.
    destruct (shouldIgnoreError _ _); [emits_all|].
    apply emitsOnly_bind; [unfold_delivery; emits_all|intros info].
    apply emitsOnly_bind; [apply processError_staysLocal|intros _]. emits_all.
  - apply getUserSession_staysLocal.
  - apply updateSessionStats_staysLocal.
  - change (emitsOnly staysLocal cleanupExpiredSessions). unfold cleanupExpiredSessions.
    unfold_delivery. emits_all.
  - change (emitsOnly staysLocal cleanupErrorQueue). unfold cleanupErrorQueue. emits_all.
  - change (emitsOnly staysLocal clearErrorQueue). unfold clearErrorQueue. emits_all.
  - change (emitsOnly staysLocal (wrappedFetch args)). unfold wrappedFetch, originalFetch.
    apply emitsOnly_bind; [unfold_delivery; emits_all|intros startTime].
    apply emitsOnly_tryCatch.
    + apply emitsOnly_bind; [emits_all|intros response].
      apply emitsOnly_bind; [unfold_delivery; emits_all|intros finish].
      apply emitsOnly_bind;
        [apply emitsOnly_when, recordCustomEvent_staysLocal|intros _].
      apply emitsOnly_bind; [|intros _; emits_all].
      apply emitsOnly_when.
      apply emitsOnly_bind; [apply recordNetworkError_staysLocal|intros _]. emits_all.
    + intros error.
      apply emitsOnly_bind; [unfold_delivery; emits_all|intros finish].
      apply emitsOnly_bind; [apply recordNetworkError_staysLocal|intros _]. emits_all.
  - change (emitsOnly staysLocal (handleMetric metric)).
    unfold handleMetric, handlePoorPerformance.
    apply emitsOnly_bind; [emits_all|intros _].
    apply emitsOnly_bind; [unfold sendMetric; rewrite no_endpoint; emits_all|intros _].
    apply emitsOnly_bind; [apply recordCustomEvent_staysLocal|intros _].
    apply emitsOnly_bind; [emits_all|intros _].
    apply emitsOnly_bind; [emits_all|intros _].
    apply emitsOnly_when.
    apply emitsOnly_bind; [emits_all|intros _]. apply recordCustomEvent_staysLocal.
  - change (emitsOnly staysLocal clearMetrics). unfold clearMetrics. emits_all.
  - change (emitsOnly staysLocal (recordPerformanceMetric name value)).
    unfold_delivery. rewrite no_endpoint. emits_all.
Qed.

End Unconfigured.

(** X17: without an endpoint the layer is local for good.  On a page
    with no endpoint configured (absent or empty), nothing that can
    happen on it - a manual report, an uncaught error, a rejection, a
    session read or update, a sweep, a queue compaction or clearing, a
    fetch call that succeeds, fails or is slow, a Web Vitals report, a
    performance metric - issues a POST, whether the code returns or
    throws. *)
Theorem no_endpoint_no_post `{Env} (h : Happening) (w : World) :
  truthy (apiEndpoint config) = None →
  posts (trace (happen h w)) = posts (trace w).
Proof.
  intros Hno. destruct (happen_staysLocal Hno h w) as (added & -> & Hlocal).
  by rewrite posts_app, (posts_staysLocal _ Hlocal), app_nil_r.
Qed.

Lemma no_endpoint_no_post_witness :
  posts (trace (happen (H := slowPage (λ _, Rejects failedToFetch)) (FetchCall getUsers)
                  freshWorld))
  = posts (trace freshWorld).
Proof.
  apply (no_endpoint_no_post (H := slowPage (λ _, Rejects failedToFetch)) (FetchCall getUsers)
           freshWorld).
  reflexivity.
Defined.

(** ** The rejection listener and the browser's default *)

Lemma keepsDefault_not_in (added : list Effect) :
  Forall keepsDefault added → PreventDefault ∉ added.
Proof.
  intros Hall Hin. rewrite Forall_forall in Hall. exact (Hall _ Hin).
Qed.

Section Rejections.

Context `{Env}.

Lemma processError_keepsDefault (error : JsError) (context : Props) (info : ErrorInfo) :
  emitsOnly keepsDefault (processError error context info).
Proof.
  unfold processError, updateSessionStats, getUserSession, addToErrorQueue.
  unfold_delivery. emits_all.
Qed.

(** X18: the default handling of a rejection is suppressed in production
    only, and only for a rejection that is captured.  On a page whose
    stored sessions the tracker can read, [handleUnhandledRejection]
    returns, and it calls [preventDefault] exactly when the environment is
    production and the filter lets the rejection through. *)
Theorem handleUnhandledRejection_suppression (reason : Reason) (w : World) :
  storageSound w →
  ∃ w' added,
    handleUnhandledRejection reason w = Returns tt w' ∧
    trace w' = trace w ++ added ∧
    (PreventDefault ∈ added
     ↔ environment config = Production ∧
       shouldIgnoreError (OfError (rejectionError reason)) None = false).
Proof.
  intros Hs. unfold handleUnhandledRejection. fold (rejectionError reason).
  destruct (shouldIgnoreError (OfError (rejectionError reason)) None) eqn:Hig.
  { exists w, []. rewrite app_nil_r. do 2 (split; [done|]).
    split; [by intros ?%elem_of_nil|by intros [_ ?]]. }
  destruct (returnsWith_inv _ _
              (formatErrorInfo_quiet (rejectionError reason) None (Some "GlobalErrorHandler") w))
    as (info & w1 & Hinfo & (_ & _ & Ht1) & Hls1).
  erewrite bind_returns by exact Hinfo.
  set (context := list_to_map _ : Props).
  assert (Hs1 : storageSound w1) by (by apply (storageSound_same w)).
  destruct (returnsWith_inv _ _
              (processError_enqueues (rejectionError reason) context info w1 Hs1))
    as ([] & w2 & Hrun & _).
  destruct (processError_keepsDefault (rejectionError reason) context info w1)
    as (added & Ht2 & Hall).
  rewrite Hrun in Ht2. simpl in Ht2. rewrite Ht1 in Ht2.
  erewrite bind_returns by exact Hrun.
  pose proof (keepsDefault_not_in added Hall) as Hnot.
  unfold when, emit, modify. destruct (environment config); simpl.
  - exists w2, added. do 2 (split; [done|]). split; [done|by intros [? _]].
  - eexists _, (added ++ [PreventDefault]). split; [reflexivity|]. simpl.
    rewrite Ht2, <- app_assoc. split; [done|].
    split; [done|]. intros _. apply elem_of_app. right. apply list_elem_of_here.
  - exists w2, added. do 2 (split; [done|]). split; [done|by intros [? _]].
Qed.

End Rejections.

Lemma handleUnhandledRejection_suppression_witness :
  ∃ w' added,
    handleUnhandledRejection (H := unsampledPage) (OtherReason "timeout") freshWorld
      = Returns tt w' ∧
    trace w' = trace freshWorld ++ added ∧
    (PreventDefault ∈ added
     ↔ environment (config (Env := unsampledPage)) = Production ∧
       shouldIgnoreError (OfError (rejectionError (OtherReason "timeout"))) None = false).
Proof.
  apply (handleUnhandledRejection_suppression (H := unsampledPage) (OtherReason "timeout")
           freshWorld).
  exact storageSound_fresh.
Defined.

(** ** The HTTP adapter *)

Section AdapterProperties.

Context `{Env}.

Lemma recordNetworkError_frame (url method : string) (status : Z) (statusText : string)
    (duration : Z) (w : World) :
  returnsWith (recordNetworkError url method status statusText duration w)
    (λ _ w', errorQueue w' = errorQueue w ∧ localStorage w' = localStorage w ∧
             metrics w' = metrics w).
Proof.
  pose proof (recordNetworkError_keeps localStorage url method status statusText duration
                ltac:(done) ltac:(done) ltac:(done) ltac:(done) w) as Hls.
  pose proof (recordNetworkError_keeps errorQueue url method status statusText duration
                ltac:(done) ltac:(done) ltac:(done) ltac:(done) w) as Hq.
  pose proof (recordNetworkError_keeps metrics url method status statusText duration
                ltac:(done) ltac:(done) ltac:(done) ltac:(done) w) as Hm.
  pose proof (recordNetworkError_shape url method status statusText duration w) as Hrun.
  by destruct (recordNetworkError _ _ _ _ _ _).
Qed.

(** A manual report, let through or not. *)
Lemma reportError_either (error : JsError) (context : option Props) (w : World) :
  storageSound w →
  returnsWith (reportError error context w)
    (λ _ w', storageSound w' ∧ metrics w' = metrics w ∧
             errorQueue w'
             = if shouldIgnoreError (OfError error) None then errorQueue w
               else enqueue (errorQueue w) (manualEntry (error, context))).
Proof.
  intros Hs. destruct (shouldIgnoreError (OfError error) None) eqn:Hig.
  - unfold reportError. rewrite Hig. by simpl.
  - eapply returnsWith_weaken; [by apply reportError_enqueues|].
    intros [] w' (? & ? & ? & _). done.
Qed.

(** X19: what the adapter's error path does to the error queue.  On a
    page whose stored sessions the tracker can read, [recordError]
    returns.  An error that came with a response leaves the queue as it
    is.  An error without a response goes through [reportError]: if the
    filter ignores its message (as it does the HTTP client's "Network
    Error") the queue is left as it is; otherwise one entry is queued,
    and its type is "manual_report" - the type that the adapter gave
    ("http_network_error" or "http_config_error") is overwritten - while
    the URL of the adapter's context is kept. *)
Theorem recordError_queue (error : AxiosError) (config : AxiosRequestConfig) (startTime : Z)
    (w : World) :
  storageSound w →
  ∃ w',
    recordError error config startTime w = Returns tt w' ∧
    storageSound w' ∧
    match ax_response error with
    | Some _ => errorQueue w' = errorQueue w
    | None =>
        if shouldIgnoreError (OfError (ax_error error)) None then errorQueue w' = errorQueue w
        else ∃ tagged,
               errorQueue w'
               = enqueue (errorQueue w) {| error := ax_error error; context := Some tagged |} ∧
               tagged !! "type" = Some (VString "manual_report") ∧
               tagged !! "url" = Some (VString (getFullUrl config))
    end.
Proof.
  intros Hs.
  cut (returnsWith (recordError error config startTime w)
         (λ _ w', storageSound w' ∧
            match ax_response error with
            | Some _ => errorQueue w' = errorQueue w
            | None =>
                if shouldIgnoreError (OfError (ax_error error)) None
                then errorQueue w' = errorQueue w
                else ∃ tagged,
                       errorQueue w'
                       = enqueue (errorQueue w)
                           {| error := ax_error error; context := Some tagged |} ∧
                       tagged !! "type" = Some (VString "manual_report") ∧
                       tagged !! "url" = Some (VString (getFullUrl config))
            end)).
  { intros Hrun. destruct (returnsWith_inv _ _ Hrun) as ([] & w' & -> & ? & ?). by exists w'. }
  unfold recordError.
  erewrite bind_returns by reflexivity.
  set (w0 := withDateReads S w).
  assert (Hs0 : storageSound w0) by done.
  assert (Hq0 : errorQueue w0 = errorQueue w) by done.
  eapply (returnsWith_bind _ _ _
            (λ _ w1, storageSound w1 ∧
               match ax_response error with
               | Some _ => errorQueue w1 = errorQueue w
               | None =>
                   if shouldIgnoreError (OfError (ax_error error)) None
                   then errorQueue w1 = errorQueue w
                   else ∃ tagged,
                          errorQueue w1
                          = enqueue (errorQueue w)
                              {| error := ax_error error; context := Some tagged |} ∧
                          tagged !! "type" = Some (VString "manual_report") ∧
                          tagged !! "url" = Some (VString (getFullUrl config))
               end)).
  - destruct (ax_response error) as [response|].
    + eapply returnsWith_bind; [apply recordNetworkError_frame|].
      intros [] w1 (Hq1 & Hls1 & _). simpl.
      assert (Hs1 : storageSound w1) by (by apply (storageSound_same w0)).
      unfold emit, modify.
      destruct (500 <=? status response); [|destruct (400 <=? status response)]; simpl.
      all: split; [by eapply storageSound_same|congruence].
    + destruct (ax_request error).
      * eapply returnsWith_bind; [apply recordNetworkError_frame|].
        intros [] w1 (Hq1 & Hls1 & _). simpl.
        assert (Hs1 : storageSound w1) by (by apply (storageSound_same w0)).
        eapply returnsWith_bind; [by apply reportError_either|].
        intros [] w2 (Hs2 & _ & Hq2). simpl. unfold emit, modify. simpl.
        split; [by eapply storageSound_same|].
        destruct (shouldIgnoreError (OfError (ax_error error)) None); [congruence|].
        eexists. rewrite Hq2, Hq1, Hq0. split; [reflexivity|]. simpl.
        split; [apply lookup_insert_eq|]. rewrite lookup_insert_ne by done.
        rewrite lookup_insert_ne by done. apply lookup_insert_eq.
      * eapply returnsWith_weaken; [by apply reportError_either|].
        intros [] w2 (Hs2 & _ & Hq2). simpl. split; [done|].
        destruct (shouldIgnoreError (OfError (ax_error error)) None); [congruence|].
        eexists. rewrite Hq2, Hq0. split; [reflexivity|]. simpl.
        split; [apply lookup_insert_eq|]. rewrite lookup_insert_ne by done.
        rewrite lookup_insert_ne by done. apply lookup_insert_eq.
  - intros [] w1 [Hs1 Hq1]. simpl.
    eapply returnsWith_weaken; [apply recordCustomEvent_posts|].
    intros [] w2 (Hq2 & _ & Hls2 & _). simpl.
    split; [by apply (storageSound_same w1)|].
    destruct (ax_response error); [congruence|].
    destruct (shouldIgnoreError (OfError (ax_error error)) None); [congruence|].
    destruct Hq1 as (tagged & Hq1 & Htype & Hurl). exists tagged. by rewrite Hq2.
Qed.

End AdapterProperties.

Lemma recordError_queue_witness :
  ∃ w',
    recordError (H := tickingPage) timedOut postOrder 1700000000000 freshWorld = Returns tt w' ∧
    storageSound w' ∧
    match ax_response timedOut with
    | Some _ => errorQueue w' = errorQueue freshWorld
    | None =>
        if shouldIgnoreError (OfError (ax_error timedOut)) None
        then errorQueue w' = errorQueue freshWorld
        else ∃ tagged,
               errorQueue w'
               = enqueue (errorQueue freshWorld)
                   {| error := ax_error timedOut; context := Some tagged |} ∧
               tagged !! "type" = Some (VString "manual_report") ∧
               tagged !! "url" = Some (VString (getFullUrl postOrder))
    end.
Proof.
  apply (recordError_queue (H := tickingPage) timedOut postOrder 1700000000000 freshWorld).
  exact storageSound_fresh.
Defined.

(** ** The URL that the adapter reports *)

Lemma headIs_collapse (c : Ascii.ascii) (s : string) :
  headIs c (collapseSlashes s) = headIs c s.
Proof.
  induction s as [|a rest IH]; [done|]. simpl.
  destruct (Ascii.eqb a "/") eqn:Ha; [|done].
  destruct rest as [|b rest']; [done|].
  destruct (Ascii.eqb b "/") eqn:Hb; [|done].
  rewrite IH. simpl.
  apply Ascii.eqb_eq in Ha as ->. by apply Ascii.eqb_eq in Hb as ->.
Qed.

Lemma noDouble_collapse (s : string) : noDouble (collapseSlashes s) = true.
Proof.
  induction s as [|a rest IH]; [done|]. simpl.
  destruct (Ascii.eqb a "/") eqn:Ha.
  - destruct rest as [|b rest']; [by simpl; rewrite Ha|].
    destruct (Ascii.eqb b "/") eqn:Hb; [done|].
    cbn [noDouble]. rewrite IH, headIs_collapse. simpl. rewrite Hb. by rewrite andb_false_r.
  - cbn [noDouble]. by rewrite IH, Ha.
Qed.

Lemma headIs_restore (c : Ascii.ascii) (s : string) :
  headIs c (restoreScheme s) = headIs c s.
Proof.
  destruct s as [|a rest]; [done|]. simpl.
  destruct (Ascii.eqb a ":") eqn:Ha; [|done].
  destruct rest as [|b rest']; [done|].
  destruct (Ascii.eqb b "/"); [|done]. simpl.
  by apply Ascii.eqb_eq in Ha as ->.
Qed.

Lemma tidy_restore (s : string) :
  noDouble s = true → ∀ afterColon, tidyFrom afterColon (restoreScheme s) = true.
Proof.
  remember (String.length s) as n eqn:Hn. revert s Hn.
  induction n as [n IH] using lt_wf_ind. intros s Hn Hs afterColon.
  destruct s as [|a rest]; [done|].
  simpl in Hs. apply andb_true_iff in Hs as [Hpair Hrest].
  simpl in Hn.
  assert (IHrest : ∀ b, tidyFrom b (restoreScheme rest) = true).
  { apply (IH (String.length rest)); [lia|done|done]. }
  simpl. destruct (Ascii.eqb a ":") eqn:Ha.
  - apply Ascii.eqb_eq in Ha as ->.
    destruct rest as [|b rest']; [done|].
    destruct (Ascii.eqb b "/") eqn:Hb.
    + apply Ascii.eqb_eq in Hb as ->.
      simpl in Hrest. apply andb_true_iff in Hrest as [Hnext Hrest'].
      apply negb_true_iff in Hnext.
      assert (IHrest' : ∀ b, tidyFrom b (restoreScheme rest') = true).
      { apply (IH (String.length rest')); [simpl in *; lia|done|done]. }
      cbn [tidyFrom headIs behead]. simpl Ascii.eqb.
      rewrite headIs_restore, Hnext, IHrest'. done.
    + cbn [tidyFrom]. simpl Ascii.eqb. by rewrite IHrest.
  - cbn [tidyFrom]. rewrite headIs_restore, Ha, IHrest.
    apply negb_true_iff in Hpair. by rewrite Hpair.
Qed.

Lemma tidyFrom_spec (s : string) (afterColon : bool) :
  tidyFrom afterColon s = true →
  ∀ pre post, s = pre +:+ "//" +:+ post →
              (pre = "" → afterColon = true) ∧
              (pre ≠ "" → ∃ pre', pre = pre' +:+ ":") ∧
              ∀ post', post ≠ "/" +:+ post'.
Proof.
  intros Htidy pre. revert s afterColon Htidy.
  induction pre as [|a pre IH]; intros s afterColon Htidy post ->.
  - simpl in Htidy. apply andb_true_iff in Htidy as [Hhere _].
    apply andb_true_iff in Hhere as [Hcolon Hthird]. apply negb_true_iff in Hthird.
    split; [done|]. split; [done|].
    intros post' ->. done.
  - change (String a pre +:+ "//" +:+ post) with (String a (pre +:+ "//" +:+ post)) in Htidy.
    cbn [tidyFrom] in Htidy. apply andb_true_iff in Htidy as [_ Hrest].
    destruct (IH _ _ Hrest post eq_refl) as (Hfirst & Hlater & Hthird).
    split; [done|]. split; [|done]. intros _.
    destruct pre as [|b pre'].
    + specialize (Hfirst eq_refl). apply Ascii.eqb_eq in Hfirst as ->. by exists "".
    + destruct Hlater as [pre'' Hpre]; [done|]. exists (String a pre''). by rewrite Hpre.
Qed.

(** X20: the URL that the adapter reports.  A URL that begins with
    "http" is reported as it is.  Any other is the base URL and the URL
    joined and tidied: in the result, two slashes in a row occur only
    right after a colon and are never followed by a third, whatever
    slashes the two parts had and wherever they had them. *)
Theorem getFullUrl_slashes (config : AxiosRequestConfig) :
  match req_url config with
  | Some url => if startsWith url "http" then getFullUrl config = url
                else slashesTidy (getFullUrl config)
  | None => slashesTidy (getFullUrl config)
  end.
Proof.
  assert (Htidy : slashesTidy
            (restoreScheme
               (collapseSlashes (default "" (req_baseURL config) +:+ default "" (req_url config))))).
  { intros pre post Heq.
    destruct (tidyFrom_spec _ false (tidy_restore _ (noDouble_collapse _) false) pre post Heq)
      as (Hfirst & Hlater & Hthird).
    split; [|done]. apply Hlater. intros ->. by specialize (Hfirst eq_refl). }
  unfold getFullUrl.
  destruct (req_url config) as [url|]; [|done].
  by destruct (startsWith url "http").
Qed.

(** ** The adapter on a successful request *)

Section AdapterRequests.

Context `{Env}.

(** What one custom event adds to the trace, seen through the
    observers. *)
Lemma recordCustomEvent_added (name : string) (properties : Props) (w : World) :
  returnsWith (recordCustomEvent name properties w)
    (λ _ w', errorQueue w' = errorQueue w ∧ metrics w' = metrics w ∧
             localStorage w' = localStorage w ∧
             ∃ added, trace w' = trace w ++ added ∧ sentryCalls added = [] ∧
                      ∀ other, length (customEvents other added)
                               = if String.eqb name other then 1%nat else 0%nat).
Proof.
  eapply returnsWith_weaken; [apply recordCustomEvent_posts|].
  intros [] w' (Hq & Hm & Hls & event & Hname & _ & Ht). simpl.
  do 3 (split; [done|]). eexists. split; [exact Ht|].
  split; [by destruct (truthy (apiEndpoint config))|].
  intros other. simpl. rewrite Hname.
  destruct (truthy (apiEndpoint config)); by destruct (String.eqb name other).
Qed.

(** X21: the adapter on a successful request.  [recordRequest] always
    builds exactly one [http_request_success] event.  It builds a
    [slow_request] event and sends one warning to the error-tracking SDK,
    naming the upper-cased method and the full URL, exactly when the
    clock reads more than 5000 ms past [startTime]: a request of exactly
    5000 ms is not slow.  The error queue, the collected metrics and
    [localStorage] stay as they were. *)
Theorem recordRequest_slow_above_5000 (config : AxiosRequestConfig) (response : Response)
    (startTime : Z) (w : World) :
  ∃ w' added,
    recordRequest config response startTime w = Returns tt w' ∧
    errorQueue w' = errorQueue w ∧ metrics w' = metrics w ∧
    localStorage w' = localStorage w ∧
    trace w' = trace w ++ added ∧
    length (customEvents "http_request_success" added) = 1%nat ∧
    length (customEvents "slow_request" added)
      = (if 5000 <? clock (dateReads w) - startTime then 1%nat else 0%nat) ∧
    ∃ tags,
      sentryCalls added
      = if 5000 <? clock (dateReads w) - startTime
        then [CaptureMessage
                ("Slow HTTP request: " +:+ upperMethod config +:+ " " +:+ getFullUrl config)
                "warning" tags]
        else [].
Proof.
  cut (returnsWith (recordRequest config response startTime w)
         (λ _ w', errorQueue w' = errorQueue w ∧ metrics w' = metrics w ∧
                  localStorage w' = localStorage w ∧
                  ∃ added, trace w' = trace w ++ added ∧
                    length (customEvents "http_request_success" added) = 1%nat ∧
                    length (customEvents "slow_request" added)
                      = (if 5000 <? clock (dateReads w) - startTime then 1%nat else 0%nat) ∧
                    ∃ tags,
                      sentryCalls added
                      = if 5000 <? clock (dateReads w) - startTime
                        then [CaptureMessage
                                ("Slow HTTP request: " +:+ upperMethod config +:+ " "
                                 +:+ getFullUrl config)
                                "warning" tags]
                        else [])).
  { intros Hrun.
    destruct (returnsWith_inv _ _ Hrun) as ([] & w' & -> & Hq & Hm & Hls & added & Hrest).
    by exists w', added. }
  unfold recordRequest.
  erewrite bind_returns by reflexivity.
  change (dateReads w) with (dateReads w).
  set (w0 := withDateReads S w).
  assert (Hq0 : errorQueue w0 = errorQueue w) by reflexivity.
  assert (Hm0 : metrics w0 = metrics w) by reflexivity.
  assert (Hls0 : localStorage w0 = localStorage w) by reflexivity.
  assert (Ht0 : trace w0 = trace w) by reflexivity.
  destruct (5000 <? clock (dateReads w) - startTime) eqn:Hslow; simpl when.
  - eapply returnsWith_bind.
    { eapply returnsWith_bind; [apply recordCustomEvent_added|].
      intros [] w1 (Hq1 & Hm1 & Hls1 & added1 & Ht1 & Hs1 & Hc1).
      unfold emit, modify. simpl.
      instantiate (1 := λ _ w2, errorQueue w2 = errorQueue w ∧ metrics w2 = metrics w ∧
                                 localStorage w2 = localStorage w ∧
                                 ∃ added tags, trace w2 = trace w ++ added ∧
                                   length (customEvents "http_request_success" added) = 0%nat ∧
                                   length (customEvents "slow_request" added) = 1%nat ∧
                                   sentryCalls added
                                   = [CaptureMessage
                                        ("Slow HTTP request: " +:+ upperMethod config +:+ " "
                                         +:+ getFullUrl config)
                                        "warning" tags]).
      simpl. split; [congruence|]. split; [congruence|]. split; [congruence|].
      eexists (added1 ++ [_]), _. split.
      { unfold withTrace. simpl. rewrite Ht1, Ht0. by rewrite <- app_assoc. }
      rewrite !customEvents_app, !length_app, sentryCalls_app, Hs1, !Hc1. simpl.
      done. }
    intros [] w2 (Hq2 & Hm2 & Hls2 & added2 & tags & Ht2 & Hok2 & Hslow2 & Hs2).
    eapply returnsWith_weaken; [apply recordCustomEvent_added|].
    intros [] w3 (Hq3 & Hm3 & Hls3 & added3 & Ht3 & Hs3 & Hc3). simpl.
    split; [congruence|]. split; [congruence|]. split; [congruence|].
    exists (added2 ++ added3). split; [rewrite Ht3, Ht2; by rewrite <- app_assoc|].
    rewrite !customEvents_app, !length_app, sentryCalls_app, Hs3, Hs2, !Hc3, Hok2, Hslow2.
    simpl. split; [done|]. split; [done|]. by exists tags.
  - erewrite bind_returns by reflexivity.
    eapply returnsWith_weaken; [apply recordCustomEvent_added|].
    intros [] w3 (Hq3 & Hm3 & Hls3 & added3 & Ht3 & Hs3 & Hc3). simpl.
    split; [congruence|]. split; [congruence|]. split; [congruence|].
    exists added3. split; [by rewrite Ht3, Ht0|].
    rewrite !Hc3, Hs3. simpl. split; [done|]. split; [done|]. by exists ∅.
Qed.

End AdapterRequests.

(** ** A captured error on the session's counters *)

Section Counting.

Context `{Env}.

(** X24: a reported error is counted once.  When the tab holds a session
    id and the session stored under it is the tab's own, [reportError]
    on an error that the filter lets through returns with that session
    written back under the same key with its [errors] raised by exactly
    1; its page views, start time and id are as before, and no other
    key of [localStorage] changes. *)
Theorem reportError_counts_once (error : JsError) (context : option Props) (w : World)
    (sid : string) (s : UserSession) :
  unignored (error, context) →
  truthy (sessionStorage w !! "monitoring_session_id") = Some sid →
  localStorage w !! ("session_" +:+ sid) = Some (SessionJson s) →
  sessionId s = sid →
  ∃ w' s',
    reportError error context w = Returns tt w' ∧
    localStorage w' = <["session_" +:+ sid := SessionJson s']> (localStorage w) ∧
    errors s' = errors s + 1 ∧ pageViews s' = pageViews s ∧
    startTime s' = startTime s ∧ sessionId s' = sid.
Proof.
  intros Hun Hheld Hstored Hown.
  cut (returnsWith (reportError error context w)
         (λ _ w', ∃ s', localStorage w' = <["session_" +:+ sid := SessionJson s']> (localStorage w) ∧
                        errors s' = errors s + 1 ∧ pageViews s' = pageViews s ∧
                        startTime s' = startTime s ∧ sessionId s' = sid)).
  { intros Hrun. destruct (returnsWith_inv _ _ Hrun) as ([] & w' & -> & s' & Hrest).
    by exists w', s'. }
  unfold reportError. unfold unignored in Hun. simpl in Hun. rewrite Hun. simpl.
  unfold formatErrorInfo.
  erewrite bind_returns; last first.
  { erewrite bind_returns by reflexivity.
    erewrite bind_returns by (apply getSessionId_reuses; exact Hheld).
    reflexivity. }
  set (w0 := withDateReads S w).
  assert (Hheld0 : truthy (sessionStorage w0 !! "monitoring_session_id") = Some sid)
    by exact Hheld.
  assert (Hstored0 : localStorage w0 !! ("session_" +:+ sid) = Some (SessionJson s))
    by exact Hstored.
  assert (Hls0 : localStorage w0 = localStorage w) by reflexivity.
  clearbody w0.
  unfold processError.
  eapply (returnsWith_bind _ _ _
            (λ _ w1, ∃ s', localStorage w1
                           = <["session_" +:+ sid := SessionJson s']> (localStorage w) ∧
                           errors s' = errors s + 1 ∧ pageViews s' = pageViews s ∧
                           startTime s' = startTime s ∧ sessionId s' = sid)).
  { unfold updateSessionStats.
    erewrite bind_returns by (by apply getUserSession_stored).
    simpl. eexists. split.
    - rewrite Hown, insert_insert_eq, Hls0. reflexivity.
    - by simpl. }
  intros [] w1 (s' & Hls1 & Hcounted).
  rewrite (bind_returns _ _ _ _ _ (addToErrorQueue_enqueue _ _ _)).
  erewrite bind_returns by reflexivity.
  erewrite bind_returns by reflexivity.
  eapply returnsWith_bind; [apply recordCustomEvent_posts|].
  intros [] w2 (_ & _ & Hls2 & _).
  unfold when, emit, modify, mbind, M_bind. destruct isDevelopment; simpl.
  all: exists s'; split; [|done].
  all: by rewrite Hls2.
Qed.

End Counting.

Lemma reportError_counts_once_witness :
  ∃ w' s',
    reportError (H := tickingPage) (newError "Test error") None (visitedWorld 1700000000000)
    = Returns tt w' ∧
    localStorage w'
    = <["session_" +:+ "7-k3x9q0a1z" := SessionJson s']>
        (localStorage (visitedWorld 1700000000000)) ∧
    errors s' = errors (visitedSession 1700000000000) + 1 ∧
    pageViews s' = pageViews (visitedSession 1700000000000) ∧
    startTime s' = startTime (visitedSession 1700000000000) ∧
    sessionId s' = "7-k3x9q0a1z".
Proof.
  apply (reportError_counts_once (H := tickingPage) (newError "Test error") None
           (visitedWorld 1700000000000) "7-k3x9q0a1z" (visitedSession 1700000000000)).
  - vm_compute. reflexivity.
  - vm_compute. reflexivity.
  - vm_compute. reflexivity.
  - reflexivity.
Defined.
